(** * task-bot: natural-language task extraction, voice transcription and
      task deletion

    A shallow embedding of [nlp_utils.py] ([extract_task_info],
    [extract_user_mention]) and of the two handlers of [bot.py] that the
    specification speaks about ([convert_voice_to_text], [delete_task]),
    followed by the properties of the specification, numbered C1 to C10.

    Conventions.
    - A Python [str] is a list of Unicode code points ([str := list Z]).
      Literals are written [u"..."]: the UTF-8 bytes of the Rocq string are
      decoded into code points.
    - The Unicode tables of the interpreter ([str.lower], [str.isspace], the
      decimal digits behind [\d] and [int], the word characters behind [\w])
      are an interface, [Ucd]; every general theorem holds for any table.
      [py_ucd] is the instance used to evaluate the examples: it agrees
      with CPython on Basic Latin and on the Cyrillic letters U+0400..U+045F.
    - Code that can raise returns a [result]; the clock, the network, the
      converter process and the file system are explicit arguments. *)

From Stdlib Require Import ZArith Lia Bool Ascii String List DecimalString.
From stdpp Require Import base option list strings gmap.

Local Open Scope Z_scope.

(** ** Python values *)

Definition codepoint := Z.
Definition str := list codepoint.

(** Exceptions that the modelled code can meet.  [CancelledError] derives
    from [BaseException] only, so [except Exception] does not catch it. *)
Inductive exn :=
| ValueError | TypeError | OverflowError | AttributeError | OSError
| TimeoutError | UnknownValueError | RequestError
| RuntimeError | CancelledError.

Definition is_Exception (e : exn) : bool :=
  match e with CancelledError => false | _ => true end.

Inductive result (A : Type) :=
| OK (a : A)
| Raise (e : exn).
Arguments OK {A} a.
Arguments Raise {A} e.

Definition bind {A B} (r : result A) (k : A -> result B) : result B :=
  match r with OK a => k a | Raise e => Raise e end.

Notation "'do' x <- r ; k" := (bind r (fun x => k))
  (at level 10, x name, r at level 100, k at level 200).

(** ** UTF-8 literals *)

Fixpoint bytes_of_string (s : string) : list Z :=
  match s with
  | EmptyString => []
  | String a s' => Z.of_N (N_of_ascii a) :: bytes_of_string s'
  end.

Definition cont_bits (b : Z) : Z := Z.land b 0x3F.

Fixpoint utf8_decode (bs : list Z) : str :=
  match bs with
  | [] => []
  | b0 :: r0 =>
    if b0 <? 0x80 then b0 :: utf8_decode r0
    else match r0 with
    | [] => []
    | b1 :: r1 =>
      if b0 <? 0xE0 then
        Z.lor (Z.shiftl (Z.land b0 0x1F) 6) (cont_bits b1) :: utf8_decode r1
      else match r1 with
      | [] => []
      | b2 :: r2 =>
        if b0 <? 0xF0 then
          Z.lor (Z.shiftl (Z.land b0 0x0F) 12)
            (Z.lor (Z.shiftl (cont_bits b1) 6) (cont_bits b2)) :: utf8_decode r2
        else match r2 with
        | [] => []
        | b3 :: r3 =>
          Z.lor (Z.shiftl (Z.land b0 0x07) 18)
            (Z.lor (Z.shiftl (cont_bits b1) 12)
               (Z.lor (Z.shiftl (cont_bits b2) 6) (cont_bits b3))) :: utf8_decode r3
        end
      end
    end
  end.

Definition u (s : string) : str := utf8_decode (bytes_of_string s).

(** ** The Unicode tables of the interpreter *)

Class Ucd := {
  (** [str.lower()], on a whole string: the mapping may change the length
      and, for the final sigma, depends on the context. *)
  ucd_lower : str -> str;
  (** [str.isspace()] of one character, the set that [str.strip()] removes. *)
  ucd_isspace : codepoint -> bool;
  (** value of a decimal digit (category Nd): the characters matched by
      [\d] and converted by [int]. *)
  ucd_decimal : codepoint -> option nat;
  (** [\w] of the [re] module on [str] patterns: alphanumeric or [_]. *)
  ucd_isword : codepoint -> bool;
}.

Definition in_range (lo hi c : Z) : bool := (lo <=? c) && (c <=? hi).

Definition py_lower_char (c : codepoint) : codepoint :=
  if in_range 0x41 0x5A c then c + 0x20          (* A-Z *)
  else if in_range 0x410 0x42F c then c + 0x20   (* А-Я *)
  else if in_range 0x400 0x40F c then c + 0x50   (* Ѐ-Џ, with Ё *)
  else c.

Definition py_isspace (c : codepoint) : bool :=
  in_range 0x09 0x0D c || in_range 0x1C 0x20 c || (c =? 0x85) || (c =? 0xA0)
  || (c =? 0x1680) || in_range 0x2000 0x200A c || (c =? 0x2028) || (c =? 0x2029)
  || (c =? 0x202F) || (c =? 0x205F) || (c =? 0x3000).

Definition py_decimal (c : codepoint) : option nat :=
  if in_range 0x30 0x39 c then Some (Z.to_nat (c - 0x30))
  else if in_range 0x660 0x669 c then Some (Z.to_nat (c - 0x660))   (* Arabic-Indic *)
  else None.

Definition py_isword (c : codepoint) : bool :=
  in_range 0x30 0x39 c || in_range 0x41 0x5A c || (c =? 0x5F)
  || in_range 0x61 0x7A c || in_range 0x400 0x45F c || in_range 0x660 0x669 c.

#[global] Instance py_ucd : Ucd := {|
  ucd_lower := map py_lower_char;
  ucd_isspace := py_isspace;
  ucd_decimal := py_decimal;
  ucd_isword := py_isword;
|}.

(** ** String methods *)

(** [s.split(sep)] for a separator of one character. *)
Fixpoint str_split (sep : codepoint) (s : str) : list str :=
  match s with
  | [] => [[]]
  | c :: s' =>
    if c =? sep then [] :: str_split sep s'
    else match str_split sep s' with
         | seg :: segs => (c :: seg) :: segs
         | [] => [[c]]
         end
  end.

(** [sep.join(parts)] *)
Fixpoint str_join (sep : str) (parts : list str) : str :=
  match parts with
  | [] => []
  | [p] => p
  | p :: ps => p ++ sep ++ str_join sep ps
  end.

Fixpoint drop_while (p : codepoint -> bool) (s : str) : str :=
  match s with
  | [] => []
  | c :: s' => if p c then drop_while p s' else s
  end.

Fixpoint take_while (p : codepoint -> bool) (s : str) : str :=
  match s with
  | [] => []
  | c :: s' => if p c then c :: take_while p s' else []
  end.

Fixpoint is_prefix (p s : str) : bool :=
  match p, s with
  | [], _ => true
  | _ :: _, [] => false
  | a :: p', b :: s' => (a =? b) && is_prefix p' s'
  end.

(** [needle in hay] *)
Fixpoint str_in (needle hay : str) : bool :=
  is_prefix needle hay ||
  match hay with
  | [] => false
  | _ :: hay' => str_in needle hay'
  end.

Section StrMethods.
Context `{U : Ucd}.

Definition str_lower (s : str) : str := ucd_lower s.

Definition str_lstrip (s : str) : str := drop_while ucd_isspace s.
Definition str_rstrip (s : str) : str := rev (drop_while ucd_isspace (rev s)).
(** [s.strip()] *)
Definition str_strip (s : str) : str := str_rstrip (str_lstrip s).

(** [s.split(maxsplit=1)]: the first word and, when something follows
    its white space, the rest as it stands. *)
Definition str_split_maxsplit1 (s : str) : list str :=
  match str_lstrip s with
  | [] => []
  | s1 =>
    let word := take_while (fun c => negb (ucd_isspace c)) s1 in
    match str_lstrip (drop_while (fun c => negb (ucd_isspace c)) s1) with
    | [] => [word]
    | rest => [word; rest]
    end
  end.
End StrMethods.

(** ** [int] and [datetime] *)

(** Default of [sys.get_int_max_str_digits()]: [int] refuses a longer
    decimal string with a [ValueError]. *)
Definition int_max_str_digits : nat := 4300.

Section Int.
Context `{U : Ucd}.

Fixpoint int_digits (acc : Z) (ds : str) : result Z :=
  match ds with
  | [] => OK acc
  | c :: ds' =>
    match ucd_decimal c with
    | Some d => int_digits (10 * acc + Z.of_nat d) ds'
    | None => Raise ValueError
    end
  end.

(** [int(s)] on a string of digits (no sign, space or underscore: the
    argument is always the text of a [\d+] group). *)
Definition py_int (s : str) : result Z :=
  match s with
  | [] => Raise ValueError
  | _ => if (int_max_str_digits <? length s)%nat then Raise ValueError
         else int_digits 0 s
  end.
End Int.

(** A naive [datetime]: the proleptic Gregorian ordinal of its date
    ([date.toordinal()], 1 for 0001-01-01) and the microsecond of the day. *)
Record datetime := mk_datetime { dt_ordinal : Z; dt_usec : Z }.

(** [date.max.toordinal()], the ordinal of 9999-12-31. *)
Definition MAXORDINAL : Z := 3652059.

(** Largest magnitude of [timedelta.days]. *)
Definition MAX_DELTA_DAYS : Z := 999999999.

(** A [timedelta] built from whole days only. *)
Record timedelta := mk_timedelta { td_days : Z }.

(** [timedelta(days=d, weeks=w)] *)
Definition timedelta_of (days weeks : Z) : result timedelta :=
  let d := days + 7 * weeks in
  if Z.abs d <=? MAX_DELTA_DAYS then OK (mk_timedelta d) else Raise OverflowError.

(** [dt + delta] *)
Definition datetime_add (dt : datetime) (delta : timedelta) : result datetime :=
  let o := dt_ordinal dt + td_days delta in
  if (1 <=? o) && (o <=? MAXORDINAL) then OK (mk_datetime o (dt_usec dt))
  else Raise OverflowError.

(** ** The [re] module, for the constructs the patterns use *)

Inductive cclass :=
| CDigit                                  (* \d *)
| CWord                                   (* \w *)
| CRanges (rs : list (codepoint * codepoint)).  (* [a-bc-d] *)

Inductive regex :=
| REmpty
| RLit (c : codepoint)
| RSeq (r1 r2 : regex)
| RAlt (r1 r2 : regex)                    (* r1|r2 *)
| ROpt (r : regex)                        (* (?:r)? *)
| RRep (c : cclass) (lo : nat) (hi : option nat)  (* c{lo,hi}, c+ *)
| RGroup (r : regex).                     (* (r), the group number 1 *)

(** A literal string. *)
Fixpoint RStr (s : str) : regex :=
  match s with
  | [] => REmpty
  | [c] => RLit c
  | c :: s' => RSeq (RLit c) (RStr s')
  end.

(** [r{1,}] *)
Definition RPlus (c : cclass) : regex := RRep c 1 None.

(** The match object: where the match starts and ends, and [group(1)]
    ([None] when the group took no part in the match). *)
Record re_match := mk_match {
  m_start : nat;
  m_end : nat;
  m_group1 : option str;
}.

Section Regex.
Context `{U : Ucd}.

Definition cclass_mem (c : cclass) (x : codepoint) : bool :=
  match c with
  | CDigit => match ucd_decimal x with Some _ => true | None => false end
  | CWord => ucd_isword x
  | CRanges rs => existsb (fun r => in_range (fst r) (snd r) x) rs
  end.

Definition hi_allows (hi : option nat) : bool :=
  match hi with Some O => false | _ => true end.

(** Greedy repetition of a character class with backtracking: take one
    more character when allowed, and give characters back one at a time
    when the rest of the pattern fails. *)
Fixpoint rep_match {A} (p : codepoint -> bool) (lo : nat) (hi : option nat)
    (s : str) (k : str -> option A) : option A :=
  let stop := match lo with O => k s | S _ => None end in
  match s with
  | c :: s' =>
    if p c && hi_allows hi then
      match rep_match p (Nat.pred lo) (option_map Nat.pred hi) s' k with
      | Some m => Some m
      | None => stop
      end
    else stop
  | [] => stop
  end.

(** The backtracking matcher: [k] is the rest of the pattern, called
    with the remaining input and the text of group 1 so far. *)
Fixpoint match_here {A} (r : regex) (s : str) (g : option str)
    (k : str -> option str -> option A) : option A :=
  match r with
  | REmpty => k s g
  | RLit c =>
    match s with
    | x :: s' => if x =? c then k s' g else None
    | [] => None
    end
  | RSeq r1 r2 => match_here r1 s g (fun s1 g1 => match_here r2 s1 g1 k)
  | RAlt r1 r2 =>
    match match_here r1 s g k with
    | Some m => Some m
    | None => match_here r2 s g k
    end
  | ROpt r1 =>
    match match_here r1 s g k with
    | Some m => Some m
    | None => k s g
    end
  | RRep c lo hi => rep_match (cclass_mem c) lo hi s (fun s1 => k s1 g)
  | RGroup r1 =>
    match_here r1 s g
      (fun s1 _ => k s1 (Some (firstn (length s - length s1) s)))
  end.

Fixpoint search_from (r : regex) (i : nat) (s : str) : option re_match :=
  match match_here r s None (fun rest g => Some (rest, g)) with
  | Some (rest, g) => Some (mk_match i (i + (length s - length rest)) g)
  | None =>
    match s with
    | [] => None
    | _ :: s' => search_from r (S i) s'
    end
  end.

(** [re.search(pattern, s)]: the leftmost match. *)
Definition re_search (r : regex) (s : str) : option re_match :=
  search_from r 0 s.
End Regex.

(** Helpers to write patterns the way they read. *)
Definition ch (s : string) : codepoint := hd 0 (u s).

Fixpoint RCat (rs : list regex) : regex :=
  match rs with
  | [] => REmpty
  | [r] => r
  | r :: rs' => RSeq r (RCat rs')
  end.

Fixpoint RAlts (rs : list regex) : regex :=
  match rs with
  | [] => REmpty
  | [r] => r
  | r :: rs' => RAlt r (RAlts rs')
  end.

(** ** nlp_utils.py *)

(** What a call reads from outside: the loaded spaCy pipeline [nlp] (its
    document is built and never looked at) and the clock behind
    [datetime.now()].  The pipeline is taken to return: spaCy refuses a
    text of more than [nlp.max_length] (1000000) characters with a
    [ValueError], and that refusal is outside this model.  What is proved
    of lines 21 to 63 holds of every text; that [extract_task_info] as a
    whole returns holds of the texts the pipeline accepts. *)
Record Env := mk_env {
  doc : Type;
  nlp : str -> doc;
  datetime_now : datetime;
}.

(** A pattern of [date_patterns]: the raw string that the loop compares
    with [==], and the expression it denotes. *)
Record pattern := mk_pattern { pat_src : string; pat_re : regex }.

(** [А-Яа-я] *)
Definition cyrillic : cclass := CRanges [(ch "А", ch "Я"); (ch "а", ch "я")].

Definition re_k : regex :=
  RCat [RStr (u "к ");
        RGroup (RCat [RRep CDigit 1 (Some 2%nat);
                      ROpt (RAlts [RStr (u "ому"); RStr (u "ому");
                                   RStr (u "ому"); RStr (u "ому")]);
                      RLit (ch " "); RPlus cyrillic])].

Definition re_do : regex :=
  RCat [RStr (u "до ");
        RGroup (RCat [RRep CDigit 1 (Some 2%nat);
                      ROpt (RAlts [RStr (u "ого"); RStr (u "ого");
                                   RStr (u "ого"); RStr (u "ого")]);
                      RLit (ch " "); RPlus cyrillic])].

Definition re_tomorrow : regex := RStr (u "завтра").

Definition re_next_week : regex := RStr (u "на следующей неделе").

Definition re_in_days : regex :=
  RCat [RStr (u "через "); RGroup (RPlus CDigit); RLit (ch " ");
        RAlts [RStr (u "день"); RStr (u "дня"); RStr (u "дней")]].

Definition re_in_weeks : regex :=
  RCat [RStr (u "через "); RGroup (RPlus CDigit); RLit (ch " ");
        RAlts [RStr (u "неделю"); RStr (u "недели"); RStr (u "недель")]].

Definition date_patterns : list pattern := [
  mk_pattern "к (\d{1,2}(?:ому|ому|ому|ому)? [А-Яа-я]+)" re_k;
  mk_pattern "до (\d{1,2}(?:ого|ого|ого|ого)? [А-Яа-я]+)" re_do;
  mk_pattern "завтра" re_tomorrow;
  mk_pattern "на следующей неделе" re_next_week;
  mk_pattern "через (\d+) (?:день|дня|дней)" re_in_days;
  mk_pattern "через (\d+) (?:неделю|недели|недель)" re_in_weeks
].

(** The [priority_indicators] dict, in insertion order. *)
Definition high_indicators : list str :=
  [u "срочно"; u "срочная"; u "важно"; u "важная";
   u "высокий приоритет"; u "приоритетная"].

Definition low_indicators : list str :=
  [u "низкий приоритет"; u "не срочно"; u "когда будет время";
   u "не приоритетная"].

Definition priority_indicators : list (str * list str) :=
  [(u "high", high_indicators); (u "low", low_indicators)].

Section NlpUtils.
Context `{U : Ucd}.

(** [match.group(1)] handed to [int]. *)
Definition int_group1 (m : re_match) : result Z :=
  match m_group1 m with
  | Some ds => py_int ds
  | None => Raise TypeError
  end.

(** The body of [for pattern in date_patterns], from the first pattern
    left to try; falling off the list leaves [due_date = None]. *)
Fixpoint date_loop (E : Env) (text : str) (patterns : list pattern)
    : result (option datetime) :=
  match patterns with
  | [] => OK None
  | pattern :: rest =>
    match re_search (pat_re pattern) (str_lower text) with
    | Some m =>
      if String.eqb (pat_src pattern) "завтра" then
        do delta <- timedelta_of 1 0;
        do due <- datetime_add (datetime_now E) delta;
        OK (Some due)
      else if String.eqb (pat_src pattern) "на следующей неделе" then
        do delta <- timedelta_of 7 0;
        do due <- datetime_add (datetime_now E) delta;
        OK (Some due)
      else if String.eqb (pat_src pattern) "через (\d+) (?:день|дня|дней)" then
        do days <- int_group1 m;
        do delta <- timedelta_of days 0;
        do due <- datetime_add (datetime_now E) delta;
        OK (Some due)
      else if String.eqb (pat_src pattern)
                "через (\d+) (?:неделю|недели|недель)" then
        do weeks <- int_group1 m;
        do delta <- timedelta_of 0 weeks;
        do due <- datetime_add (datetime_now E) delta;
        OK (Some due)
      else OK None   (* break *)
    | None => date_loop E text rest
    end
  end.

(** Lines 26-50: "Extract due date". *)
Definition extract_due_date (E : Env) (text : str) : result (option datetime) :=
  date_loop E text date_patterns.

(** The body of [for p, indicators in priority_indicators.items()]. *)
Fixpoint priority_loop (text_lower : str) (items : list (str * list str))
    (priority : str) : str :=
  match items with
  | [] => priority
  | (p, indicators) :: rest =>
    if existsb (fun indicator => str_in indicator text_lower) indicators
    then p   (* break *)
    else priority_loop text_lower rest priority
  end.

(** Lines 52-63: "Extract priority". *)
Definition extract_priority (text : str) : str :=
  let priority := u "medium" in
  let text_lower := str_lower text in
  priority_loop text_lower priority_indicators priority.

(** Line 21: "Extract title". *)
Definition extract_title (text : str) : str :=
  str_strip (nth 0 (str_split (ch ".") text) []).

(** Line 24: "Extract description". *)
Definition extract_description (text : str) : str :=
  if (1 <? length (str_split (ch ".") text))%nat
  then str_strip (str_join (u ".") (skipn 1 (str_split (ch ".") text)))
  else [].

Definition extract_task_info (E : Env) (text : str)
    : result (str * str * option datetime * str) :=
  let doc := nlp E text in
  let title := extract_title text in
  let description := extract_description text in
  do due_date <- extract_due_date E text;
  let priority := extract_priority text in
  OK (title, description, due_date, priority).

Definition mention_pattern : regex := RCat [RLit (ch "@"); RGroup (RPlus CWord)].

Definition extract_user_mention (text : str) : option str :=
  match re_search mention_pattern text with
  | Some m => m_group1 m
  | None => None
  end.
End NlpUtils.

(** The mention as the specification words it: the first [@] that a word
    character follows, and the word characters after it. *)
Fixpoint first_mention `{U : Ucd} (text : str) : option str :=
  match text with
  | [] => None
  | c :: rest =>
    if (c =? ch "@") && match rest with x :: _ => ucd_isword x | [] => false end
    then Some (take_while ucd_isword rest)
    else first_mention rest
  end.

(** ** What the matcher is meant to find *)

(** No capturing group inside. *)
Fixpoint group_free (r : regex) : bool :=
  match r with
  | REmpty | RLit _ | RRep _ _ _ => true
  | RSeq r1 r2 | RAlt r1 r2 => group_free r1 && group_free r2
  | ROpt r1 => group_free r1
  | RGroup _ => false
  end.

(** What a successful match of [r] looks like: [sem r w g g'] says that
    [r] can consume exactly [w], turning the text of group 1 from [g]
    into [g']. *)
Fixpoint sem `{U : Ucd} (r : regex) (w : str) (g g' : option str) : Prop :=
  match r with
  | REmpty => w = [] /\ g' = g
  | RLit c => w = [c] /\ g' = g
  | RSeq r1 r2 =>
    exists w1 w2 g1, w = w1 ++ w2 /\ sem r1 w1 g g1 /\ sem r2 w2 g1 g'
  | RAlt r1 r2 => sem r1 w g g' \/ sem r2 w g g'
  | ROpt r1 => sem r1 w g g' \/ (w = [] /\ g' = g)
  | RRep c lo hi =>
    forallb (cclass_mem c) w = true /\ (lo <= length w)%nat /\
    match hi with Some h => (length w <= h)%nat | None => True end /\ g' = g
  | RGroup r1 => exists g1, sem r1 w g g1 /\ g' = Some w
  end.

(** *** The reference algorithm of the specification

    An ordered list of (matcher, resolver) pairs over the lower-cased
    input; the first pattern that matches anywhere governs.  Time stamps
    of the specification have no upper end: [plus_days] is plain
    arithmetic on the day. *)

Inductive date_rule :=
| LiteralDate   (* a literal day and month: the scan stops, no date *)
| Tomorrow      (* now + 1 day *)
| NextWeek      (* now + 7 days *)
| InDays        (* now + N days *)
| InWeeks.      (* now + N weeks *)

Definition date_rules : list (regex * date_rule) :=
  combine (map pat_re date_patterns)
    [LiteralDate; LiteralDate; Tomorrow; NextWeek; InDays; InWeeks].

Definition plus_days (t : datetime) (d : Z) : datetime :=
  mk_datetime (dt_ordinal t + d) (dt_usec t).

Section Reference.
Context `{U : Ucd}.

Fixpoint first_rule (lowered : str) (rules : list (regex * date_rule))
    : option (date_rule * re_match) :=
  match rules with
  | [] => None
  | (r, rule) :: rest =>
    match re_search r lowered with
    | Some m => Some (rule, m)
    | None => first_rule lowered rest
    end
  end.

Fixpoint digits_value (acc : Z) (ds : str) : Z :=
  match ds with
  | [] => acc
  | c :: ds' => digits_value (10 * acc + Z.of_nat (default O (ucd_decimal c))) ds'
  end.

(** The digits of N as written in the text, and N. *)
Definition matched_digits (m : re_match) : str := default [] (m_group1 m).
Definition matched_number (m : re_match) : Z := digits_value 0 (matched_digits m).

(** How many days from now the rule asks for. *)
Definition rule_days (rule : date_rule) (m : re_match) : option Z :=
  match rule with
  | LiteralDate => None
  | Tomorrow => Some 1
  | NextWeek => Some 7
  | InDays => Some (matched_number m)
  | InWeeks => Some (7 * matched_number m)
  end.

(** How many digits the rule reads from the text. *)
Definition rule_digits (rule : date_rule) (m : re_match) : nat :=
  match rule with
  | InDays | InWeeks => length (matched_digits m)
  | _ => O
  end.

Definition ref_due_date (now : datetime) (text : str) : option datetime :=
  match first_rule (str_lower text) date_rules with
  | None => None
  | Some (rule, m) => option_map (plus_days now) (rule_days rule m)
  end.

(** The rule that the loop attaches to a pattern by comparing its text. *)
Definition rule_of_src (src : string) : date_rule :=
  if String.eqb src "завтра" then Tomorrow
  else if String.eqb src "на следующей неделе" then NextWeek
  else if String.eqb src "через (\d+) (?:день|дня|дней)" then InDays
  else if String.eqb src "через (\d+) (?:неделю|недели|недель)" then InWeeks
  else LiteralDate.

(** What the loop computes once a pattern with this rule has matched. *)
Definition run_rule (E : Env) (rule : date_rule) (m : re_match)
    : result (option datetime) :=
  match rule with
  | LiteralDate => OK None
  | Tomorrow =>
    do delta <- timedelta_of 1 0;
    do due <- datetime_add (datetime_now E) delta;
    OK (Some due)
  | NextWeek =>
    do delta <- timedelta_of 7 0;
    do due <- datetime_add (datetime_now E) delta;
    OK (Some due)
  | InDays =>
    do days <- int_group1 m;
    do delta <- timedelta_of days 0;
    do due <- datetime_add (datetime_now E) delta;
    OK (Some due)
  | InWeeks =>
    do weeks <- int_group1 m;
    do delta <- timedelta_of 0 weeks;
    do due <- datetime_add (datetime_now E) delta;
    OK (Some due)
  end.

(** The date that the reference algorithm asks for can be computed:
    N has at most 4300 digits, the distance fits a [timedelta] and the
    day is one of the years 1 to 9999. *)
Definition representable (now : datetime) (text : str) : Prop :=
  match first_rule (str_lower text) date_rules with
  | None => True
  | Some (rule, m) =>
    match rule_days rule m with
    | None => True
    | Some d =>
      (rule_digits rule m <= int_max_str_digits)%nat /\
      d <= MAX_DELTA_DAYS /\
      1 <= dt_ordinal now + d <= MAXORDINAL
    end
  end.
End Reference.

(** ** bot.py: voice messages *)

Definition path := string.

(** How the converter process ends once it runs: it exits after some
    time with a return code, or waiting for it raises. *)
Inductive process_run :=
| Exits (elapsed_ms : Z) (returncode : Z)
| WaitRaises (e : exn).

(** What the collaborators of one call do: the two temporary files,
    [bot.download] and the write of the payload, [ffmpeg], the recogniser
    and [os.unlink]. *)
Record Scenario := mk_scenario {
  sc_tmp_ogg : result path;      (* NamedTemporaryFile(suffix='.ogg', delete=False) *)
  sc_tmp_wav : result path;      (* NamedTemporaryFile(suffix='.wav', delete=False) *)
  sc_download : result unit;     (* bot.download, read, write, flush *)
  sc_spawn : result unit;        (* asyncio.create_subprocess_exec *)
  sc_run : process_run;          (* process.communicate() *)
  sc_kill : result unit;         (* process.kill() *)
  sc_audio : result unit;        (* sr.AudioFile(...) and recognizer.record *)
  sc_recognize : result str;     (* recognizer.recognize_google *)
  sc_unlink : path -> result unit;
}.

(** The files on disk. *)
Abbreviation filesystem := (gset path).

(** [timeout=10.0] of [asyncio.wait_for], in milliseconds. *)
Definition FFMPEG_TIMEOUT_MS : Z := 10000.

(** [await asyncio.wait_for(process.communicate(), timeout)], giving
    [process.returncode]. *)
Definition wait_for (timeout_ms : Z) (run : process_run) : result Z :=
  match run with
  | Exits elapsed rc => if elapsed <=? timeout_ms then OK rc else Raise TimeoutError
  | WaitRaises e => Raise e
  end.

(** [try: r except Exception: handler] *)
Definition except_Exception {A} (r : result A) (handler : exn -> result A)
    : result A :=
  match r with
  | OK a => OK a
  | Raise e => if is_Exception e then handler e else Raise e
  end.

(** [try: r finally: c], for a [finally] block that returns nothing. *)
Definition finally {A} (r : result A) (c : result unit) : result A :=
  match c with
  | OK _ => r
  | Raise e => Raise e
  end.

Definition convert_ogg_to_wav (sc : Scenario) (ogg_path wav_path : path)
    : result bool :=
  except_Exception
    (do process <- sc_spawn sc;
     match wait_for FFMPEG_TIMEOUT_MS (sc_run sc) with
     | OK returncode => OK (returncode =? 0)
     | Raise TimeoutError =>
       do killed <- sc_kill sc;
       OK false
     | Raise e => Raise e
     end)
    (fun e => OK false).

(** [os.unlink(p)] *)
Definition os_unlink (sc : Scenario) (p : path) (fs : filesystem)
    : result unit * filesystem :=
  if decide (p ∈ fs) then
    match sc_unlink sc p with
    | OK _ => (OK tt, fs ∖ {[p]})
    | Raise e => (Raise e, fs)
    end
  else (Raise OSError, fs).

(** The [finally] block: both unlinks under one [try], errors logged. *)
Definition cleanup (sc : Scenario) (ogg wav : path) (fs : filesystem)
    : result unit * filesystem :=
  let '(r1, fs1) := os_unlink sc ogg fs in
  match r1 with
  | OK _ =>
    let '(r2, fs2) := os_unlink sc wav fs1 in
    (except_Exception r2 (fun e => OK tt), fs2)
  | Raise e => (except_Exception (Raise e) (fun e => OK tt), fs1)
  end.

(** The [try] block that the [finally] guards: conversion, then
    recognition. *)
Definition convert_and_recognize (sc : Scenario) (ogg wav : path)
    : result (option str) :=
  do converted <- convert_ogg_to_wav sc ogg wav;
  if negb converted then OK None
  else
    do audio_data <- sc_audio sc;
    match sc_recognize sc with
    | OK text => OK (Some text)
    | Raise UnknownValueError => OK None
    | Raise RequestError => OK None
    | Raise e => Raise e
    end.

(** The [with] block: the two files are created, the payload is
    downloaded, and only then does the guarded block begin. *)
Definition voice_body (sc : Scenario) (fs : filesystem)
    : result (option str) * filesystem :=
  match sc_tmp_ogg sc with
  | Raise e => (Raise e, fs)
  | OK ogg =>
    let fs1 := fs ∪ {[ogg]} in
    match sc_tmp_wav sc with
    | Raise e => (Raise e, fs1)
    | OK wav =>
      let fs2 := fs1 ∪ {[wav]} in
      match sc_download sc with
      | Raise e => (Raise e, fs2)
      | OK _ =>
        let r := convert_and_recognize sc ogg wav in
        let '(c, fs3) := cleanup sc ogg wav fs2 in
        (finally r c, fs3)
      end
    end
  end.

Definition convert_voice_to_text (sc : Scenario) (fs : filesystem)
    : result (option str) * filesystem :=
  let '(r, fs') := voice_body sc fs in
  (except_Exception r (fun e => OK None), fs').

(** No step is cut short by a cancellation of the task: whatever is
    raised derives from [Exception]. *)
Definition ordinary {A} (r : result A) : Prop :=
  match r with
  | OK _ => True
  | Raise e => is_Exception e = true
  end.

Definition not_cancelled (sc : Scenario) : Prop :=
  ordinary (sc_tmp_ogg sc) /\ ordinary (sc_tmp_wav sc) /\
  ordinary (sc_download sc) /\ ordinary (sc_spawn sc) /\
  ordinary (wait_for FFMPEG_TIMEOUT_MS (sc_run sc)) /\
  ordinary (sc_kill sc) /\ ordinary (sc_audio sc) /\
  ordinary (sc_recognize sc) /\ (forall p, ordinary (sc_unlink sc p)).

(** ** bot.py: /delete *)

Record User := mk_user {
  user_id : Z;
  user_telegram_id : Z;
  user_username : option str;
}.

(** A row of [tasks]; its [id] is the key under which the table holds it. *)
Record Task := mk_task {
  task_title : str;
  task_description : option str;
  task_due_date : option datetime;
  task_status : str;
  task_priority : str;
  task_assignee_id : option Z;
  task_creator_id : option Z;
  task_is_completed : bool;
}.

Record Db := mk_db {
  db_users : list User;       (* in the order [first()] sees them *)
  db_tasks : gmap Z Task;     (* by primary key *)
}.

Record Message := mk_message {
  msg_text : str;
  msg_from_user : option Z;   (* [from_user.id]; no [from_user] on a channel post *)
}.

(** The database engine compares the integer column [Task.id] with the
    text of the command: the id that it takes the text for, no id when no
    row can be equal, or an error of the driver. *)
Inductive id_lookup :=
| Row (id : Z)
| NoRow
| DriverError.

Record Engine := mk_engine { id_of_text : str -> id_lookup }.

Definition nl : str := [10].

Definition str_of_int (z : Z) : str := u (NilZero.string_of_int (Z.to_int z)).

Definition reply_bad_format : str :=
  u "❌ Неверный формат команды." ++ nl ++
  u "Используйте: /delete <ID задачи>" ++ nl ++
  u "Например: /delete 1".
Definition reply_no_user : str := u "❌ Пользователь не найден в базе данных.".
Definition reply_no_task : str := u "❌ Задача не найдена.".
Definition reply_not_creator : str :=
  u "❌ Вы можете удалять только те задачи, которые создали сами.".
Definition reply_deleted (id : Z) : str :=
  u "✅ Задача #" ++ str_of_int id ++ u " успешно удалена.".
Definition reply_error : str :=
  u "❌ Произошла ошибка при удалении задачи. Пожалуйста, попробуйте еще раз.".

(** A reply that reports a refusal or a failure. *)
Definition is_error_reply (r : str) : bool := is_prefix (u "❌") r.

Definition opt_Z_eqb (a b : option Z) : bool :=
  match a, b with
  | Some x, Some y => x =? y
  | None, None => true
  | _, _ => false
  end.

Section Bot.
Context `{U : Ucd}.

Definition delete_task (eng : Engine) (db : Db) (message : Message)
    : result (list str * Db) :=
  except_Exception
    (let args := str_split_maxsplit1 (msg_text message) in
     if negb (length args =? 2)%nat then OK ([reply_bad_format], db)
     else
       let task_id := nth 1 args [] in
       do from_user <- match msg_from_user message with
                       | Some id => OK id
                       | None => Raise AttributeError
                       end;
       match find (fun usr => user_telegram_id usr =? from_user) (db_users db) with
       | None => OK ([reply_no_user], db)
       | Some current_user =>
         match id_of_text eng task_id with
         | DriverError => Raise RuntimeError
         | NoRow => OK ([reply_no_task], db)
         | Row id =>
           match db_tasks db !! id with
           | None => OK ([reply_no_task], db)
           | Some task =>
             if negb (opt_Z_eqb (task_creator_id task) (Some (user_id current_user)))
             then OK ([reply_not_creator], db)
             else
               let db' := mk_db (db_users db) (delete id (db_tasks db)) in
               OK ([reply_deleted id], db')
           end
         end
       end)
    (fun e => OK ([reply_error], db)).
End Bot.

(** The requester is the user who created the task. *)
Definition is_creator (db : Db) (message : Message) (task : Task) : Prop :=
  exists from_user usr,
    msg_from_user message = Some from_user /\
    find (fun usr => user_telegram_id usr =? from_user) (db_users db) = Some usr /\
    task_creator_id task = Some (user_id usr).

(** The command carries one argument and the engine finds the task
    [id] for it. *)
Definition names_task `{U : Ucd} (eng : Engine) (db : Db) (message : Message)
    (id : Z) (task : Task) : Prop :=
  exists cmd arg,
    str_split_maxsplit1 (msg_text message) = [cmd; arg] /\
    id_of_text eng arg = Row id /\
    db_tasks db !! id = Some task.

(** ** Sample inputs *)

(** A clock reading (an ordinal of the year 2024) and a pipeline whose
    document is empty. *)
Definition env0 : Env := mk_env unit (fun _ => tt) (mk_datetime 739000 43200000000).

Definition text_report : str :=
  u "Создать задачу: Подготовить отчет к завтрашнему дню. Важно!".

Definition text_client : str :=
  u "Новая задача: Связаться с клиентом @ivan до пятницы".

(** A voice message that is converted in 0.8 s and recognised. *)
Definition scenario_ok : Scenario :=
  mk_scenario (OK "/tmp/tmpa1.ogg"%string) (OK "/tmp/tmpb2.wav"%string)
    (OK tt) (OK tt) (Exits 800 0) (OK tt) (OK tt) (OK (u "купить молоко"))
    (fun p => OK tt).

(** The same, with a download that raises. *)
Definition scenario_download_fails : Scenario :=
  mk_scenario (OK "/tmp/tmpa1.ogg"%string) (OK "/tmp/tmpb2.wav"%string)
    (Raise RuntimeError) (OK tt) (Exits 800 0) (OK tt) (OK tt)
    (OK (u "купить молоко")) (fun p => OK tt).

(** The same as the first, with a converter that needs 12 s. *)
Definition scenario_timeout : Scenario :=
  mk_scenario (OK "/tmp/tmpa1.ogg"%string) (OK "/tmp/tmpb2.wav"%string)
    (OK tt) (OK tt) (Exits 12000 0) (OK tt) (OK tt) (OK (u "купить молоко"))
    (fun p => OK tt).

(** An engine that reads the text as a decimal number. *)
Definition engine0 : Engine :=
  mk_engine (fun arg => match py_int arg with OK id => Row id | Raise _ => NoRow end).

(** Two users and one task, created by the first. *)
Definition db0 : Db :=
  mk_db [mk_user 1 100 (Some (u "anna")); mk_user 2 200 (Some (u "boris"))]
        {[ 7 := mk_task (u "Отчет") None None (u "pending") (u "medium")
                   (Some 2) (Some 1) false ]}.

(** ** bot.py: the other handlers *)

(** The message together with [from_user.username], which [delete_task]
    does not read. *)
Record Update := mk_update {
  upd_message : Message;
  upd_username : option str;
}.

(** What the handlers take from the database engine and from the C
    library: the primary key given to a new row, and
    [strftime('%d.%m.%Y')]. *)
Record Runtime := mk_runtime {
  next_user_id : list User -> Z;
  next_task_id : gmap Z Task -> Z;
  strftime_dmy : datetime -> str;
}.

(** What a handler sends: [message.answer], [processing_msg.edit_text]
    and [bot.send_message]. *)
Inductive outgoing :=
| Answer (text : str)
| EditText (text : str)
| SendMessage (chat_id : Z) (text : str).

Fixpoint str_eqb (a b : str) : bool :=
  match a, b with
  | [], [] => true
  | x :: a', y :: b' => (x =? y) && str_eqb a' b'
  | _, _ => false
  end.

(** [User.username == name] in a query: a NULL username matches nothing. *)
Definition username_is (name : str) (usr : User) : bool :=
  match user_username usr with
  | Some n => str_eqb n name
  | None => false
  end.

(** [str(x)] inside an f-string, for nullable columns. *)
Definition str_of_opt_str (o : option str) : str := default (u "None") o.
Definition str_of_opt_int (o : option Z) : str :=
  match o with Some z => str_of_int z | None => u "None" end.

(** [s.split(maxsplit=n)] *)
Fixpoint str_split_max `{U : Ucd} (maxsplit : nat) (s : str) : list str :=
  match str_lstrip s with
  | [] => []
  | s1 =>
    match maxsplit with
    | O => [s1]
    | S n =>
      take_while (fun c => negb (ucd_isspace c)) s1 ::
      str_split_max n (drop_while (fun c => negb (ucd_isspace c)) s1)
    end
  end.

(** [s.split()]: no word is longer than the string has characters. *)
Definition str_split_ws `{U : Ucd} (s : str) : list str :=
  str_split_max (length s) s.

(** [s.lstrip('@')] *)
Definition lstrip_at (s : str) : str := drop_while (fun c => c =? ch "@") s.

Definition greeting : str :=
  u "👋 Привет! Я бот для управления задачами." ++ nl ++ nl ++
  u "Вы можете создавать задачи, используя естественный язык." ++ nl ++
  u "Например: 'Создать задачу: Подготовить отчет к завтрашнему дню. Важно!'" ++
  nl ++ nl ++
  u "Также вы можете создавать задачи голосовыми сообщениями! 🎤".

Definition reply_create_error : str :=
  u "❌ Произошла ошибка при создании задачи. Пожалуйста, попробуйте еще раз.".

Definition reply_assign_bad_format : str :=
  u "❌ Неверный формат команды." ++ nl ++
  u "Используйте: /assign <ID задачи> @username" ++ nl ++
  u "Например: /assign 1 @ivan".

Definition reply_assign_not_creator (creator_id : option Z) (your_id : Z) : str :=
  u "❌ Вы можете назначать только те задачи, которые создали сами." ++ nl ++
  u "ID создателя задачи: " ++ str_of_opt_int creator_id ++ nl ++
  u "Ваш ID: " ++ str_of_int your_id.

Definition reply_no_assignee (assignee_username : str) : str :=
  u "❌ Пользователь @" ++ assignee_username ++ u " не найден.".

Definition reply_assign_error : str :=
  u "❌ Произошла ошибка при назначении задачи. Пожалуйста, попробуйте еще раз.".

Definition reply_edit_bad_format : str :=
  u "❌ Неверный формат команды." ++ nl ++
  u "Используйте: /edit <ID задачи> <новое название>" ++ nl ++
  u "Например: /edit 1 Новое название задачи".

Definition reply_edit_not_creator : str :=
  u "❌ Вы можете редактировать только те задачи, которые создали сами.".

Definition reply_edit_error : str :=
  u "❌ Произошла ошибка при редактировании задачи. Пожалуйста, попробуйте еще раз.".

Definition voice_processing : str := u "🎤 Обрабатываю голосовое сообщение...".

Definition voice_not_recognized : str :=
  u "❌ Не удалось распознать голосовое сообщение. Пожалуйста, попробуйте еще раз или используйте текстовый формат.".

Definition voice_recognized (text : str) : str :=
  u "🎤 Распознано: " ++ text ++ nl ++ nl ++ u "Создаю задачу...".

Definition voice_error : str :=
  u "❌ Произошла ошибка при обработке голосового сообщения. Пожалуйста, попробуйте еще раз или используйте текстовый формат.".

(** The lines that the replies share: description and due date when
    there is one, then the priority. *)
Definition task_lines (rt : Runtime) (task : Task) : str :=
  (match task_description task with
   | Some (c :: d) => u "📝 " ++ (c :: d) ++ nl
   | _ => []
   end) ++
  (match task_due_date task with
   | Some due => u "⏰ Срок: " ++ strftime_dmy rt due ++ nl
   | None => []
   end) ++
  u "🎯 Приоритет: " ++ task_priority task ++ nl.

Definition creation_response (rt : Runtime) (task : Task) : str :=
  u "✅ Задача создана:" ++ nl ++ nl ++
  u "📌 " ++ task_title task ++ nl ++ task_lines rt task.

Definition assign_response (rt : Runtime) (task : Task) (assignee : User) : str :=
  u "✅ Задача назначена:" ++ nl ++ nl ++
  u "📌 " ++ task_title task ++ nl ++ task_lines rt task ++
  u "👤 Исполнитель: @" ++ str_of_opt_str (user_username assignee).

Definition assign_notice (task : Task) (from_username : option str) : str :=
  u "📬 Вам назначена новая задача:" ++ nl ++ nl ++
  u "📌 " ++ task_title task ++ nl ++
  u "👤 От: @" ++ str_of_opt_str from_username.

Definition edit_response (rt : Runtime) (old_title : str) (task : Task)
    (assignee : option User) : str :=
  u "✅ Задача обновлена:" ++ nl ++ nl ++
  u "📌 Старое название: " ++ old_title ++ nl ++
  u "📌 Новое название: " ++ task_title task ++ nl ++ task_lines rt task ++
  match assignee with
  | Some a => u "👤 Исполнитель: @" ++ str_of_opt_str (user_username a)
  | None => []
  end.

Definition edit_notice (task : Task) (from_username : option str) : str :=
  u "📝 Задача обновлена:" ++ nl ++ nl ++
  u "📌 " ++ task_title task ++ nl ++
  u "👤 От: @" ++ str_of_opt_str from_username.

(** Field updates of a row. *)
Definition set_assignee (assignee_id : option Z) (task : Task) : Task :=
  mk_task (task_title task) (task_description task) (task_due_date task)
    (task_status task) (task_priority task) assignee_id (task_creator_id task)
    (task_is_completed task).

Definition set_title (title : str) (task : Task) : Task :=
  mk_task title (task_description task) (task_due_date task)
    (task_status task) (task_priority task) (task_assignee_id task)
    (task_creator_id task) (task_is_completed task).

(** The query for the user of a Telegram id, and the "get or create"
    block of [cmd_start] and [process_task_creation]. *)
Definition user_by_telegram (db : Db) (telegram_id : Z) : option User :=
  find (fun usr => user_telegram_id usr =? telegram_id) (db_users db).

Definition get_or_create_user (rt : Runtime) (db : Db) (telegram_id : Z)
    (username : option str) : User * Db :=
  match user_by_telegram db telegram_id with
  | Some user => (user, db)
  | None =>
    let user := mk_user (next_user_id rt (db_users db)) telegram_id username in
    (user, mk_db (db_users db ++ [user]) (db_tasks db))
  end.

(** [task.assignee]: the row that [assignee_id] points to. *)
Definition task_assignee (db : Db) (task : Task) : option User :=
  task_assignee_id task ≫= fun id => find (fun usr => user_id usr =? id) (db_users db).

(** No [try] here: a message without [from_user] makes the handler raise. *)
Definition cmd_start (rt : Runtime) (db : Db) (upd : Update)
    : result (list str) * Db :=
  match msg_from_user (upd_message upd) with
  | None => (Raise AttributeError, db)
  | Some from_user =>
    let '(user, db1) := get_or_create_user rt db from_user (upd_username upd) in
    (OK [greeting], db1)
  end.

Section Handlers.
Context `{U : Ucd}.

Definition process_task_creation (rt : Runtime) (E : Env) (db : Db)
    (upd : Update) (text : str) : result (list str) * Db :=
  match msg_from_user (upd_message upd) with
  | None => (OK [reply_create_error], db)      (* AttributeError, caught *)
  | Some from_user =>
    let '(user, db1) := get_or_create_user rt db from_user (upd_username upd) in
    match extract_task_info E text with
    | Raise e =>
      (except_Exception (Raise e) (fun e => OK [reply_create_error]), db1)
    | OK (title, description, due_date, priority) =>
      let assignee_username := extract_user_mention text in
      let assignee_id :=
        match assignee_username with
        | Some (c :: name) =>
          option_map user_id (find (username_is (c :: name)) (db_users db1))
        | _ => None
        end in
      let task := mk_task title (Some description) due_date (u "pending")
                    priority assignee_id (Some (user_id user)) false in
      let id := next_task_id rt (db_tasks db1) in
      let db2 := mk_db (db_users db1) (<[id := task]> (db_tasks db1)) in
      (OK [creation_response rt task], db2)
    end
  end.

(** [handle_voice]: what was sent, what escaped, and the two stores. *)
Definition handle_voice (rt : Runtime) (E : Env) (sc : Scenario) (db : Db)
    (fs : filesystem) (upd : Update)
    : list outgoing * option exn * Db * filesystem :=
  let processing := Answer voice_processing in
  let '(r, fs') := convert_voice_to_text sc fs in
  match r with
  | Raise e =>
    if is_Exception e then ([processing; Answer voice_error], None, db, fs')
    else ([processing], Some e, db, fs')
  | OK None | OK (Some []) =>
    ([processing; EditText voice_not_recognized], None, db, fs')
  | OK (Some text) =>
    let '(r2, db') := process_task_creation rt E db upd text in
    match r2 with
    | OK replies =>
      (processing :: EditText (voice_recognized text) :: map Answer replies,
       None, db', fs')
    | Raise e =>
      if is_Exception e
      then ([processing; EditText (voice_recognized text); Answer voice_error],
            None, db', fs')
      else ([processing; EditText (voice_recognized text)], Some e, db', fs')
    end
  end.

(** [notify] is what [bot.send_message] to the assignee does. *)
Definition assign_task (rt : Runtime) (eng : Engine) (db : Db) (upd : Update)
    (notify : result unit) : list outgoing * option exn * Db :=
  let message := upd_message upd in
  let args := str_split_ws (msg_text message) in
  if negb (length args =? 3)%nat then ([Answer reply_assign_bad_format], None, db)
  else
    let task_id := nth 1 args [] in
    let assignee_username := lstrip_at (nth 2 args []) in
    match msg_from_user message with
    | None => ([Answer reply_assign_error], None, db)
    | Some from_user =>
      match user_by_telegram db from_user with
      | None => ([Answer reply_no_user], None, db)
      | Some current_user =>
        match id_of_text eng task_id with
        | DriverError => ([Answer reply_assign_error], None, db)
        | NoRow => ([Answer reply_no_task], None, db)
        | Row id =>
          match db_tasks db !! id with
          | None => ([Answer reply_no_task], None, db)
          | Some task =>
            if negb (opt_Z_eqb (task_creator_id task) (Some (user_id current_user)))
            then ([Answer (reply_assign_not_creator (task_creator_id task)
                             (user_id current_user))], None, db)
            else
              match find (username_is assignee_username) (db_users db) with
              | None => ([Answer (reply_no_assignee assignee_username)], None, db)
              | Some assignee =>
                let task' := set_assignee (Some (user_id assignee)) task in
                let db' := mk_db (db_users db) (<[id := task']> (db_tasks db)) in
                let response := Answer (assign_response rt task' assignee) in
                match notify with
                | OK _ =>
                  ([response;
                    SendMessage (user_telegram_id assignee)
                      (assign_notice task' (upd_username upd))], None, db')
                | Raise e =>
                  if is_Exception e then ([response], None, db')
                  else ([response], Some e, db')
                end
              end
          end
        end
      end
    end.

Definition edit_task (rt : Runtime) (eng : Engine) (db : Db) (upd : Update)
    (notify : result unit) : list outgoing * option exn * Db :=
  let message := upd_message upd in
  let args := str_split_max 2 (msg_text message) in
  if negb (length args =? 3)%nat then ([Answer reply_edit_bad_format], None, db)
  else
    let task_id := nth 1 args [] in
    let new_title := nth 2 args [] in
    match msg_from_user message with
    | None => ([Answer reply_edit_error], None, db)
    | Some from_user =>
      match user_by_telegram db from_user with
      | None => ([Answer reply_no_user], None, db)
      | Some current_user =>
        match id_of_text eng task_id with
        | DriverError => ([Answer reply_edit_error], None, db)
        | NoRow => ([Answer reply_no_task], None, db)
        | Row id =>
          match db_tasks db !! id with
          | None => ([Answer reply_no_task], None, db)
          | Some task =>
            if negb (opt_Z_eqb (task_creator_id task) (Some (user_id current_user)))
            then ([Answer reply_edit_not_creator], None, db)
            else
              let old_title := task_title task in
              let task' := set_title new_title task in
              let db' := mk_db (db_users db) (<[id := task']> (db_tasks db)) in
              let assignee := task_assignee db' task' in
              let response := Answer (edit_response rt old_title task' assignee) in
              match assignee with
              | None => ([response], None, db')
              | Some a =>
                match notify with
                | OK _ =>
                  ([response;
                    SendMessage (user_telegram_id a)
                      (edit_notice task' (upd_username upd))], None, db')
                | Raise e =>
                  if is_Exception e then ([response], None, db')
                  else ([response], Some e, db')
                end
              end
          end
        end
      end
    end.
End Handlers.

(** ** web_server.py *)

(** What a request handler gives: a value, an [HTTPException] with its
    status code, or another exception. *)
Inductive http (A : Type) :=
| Returned (a : A)
| HTTPException (status_code : Z) (detail : str)
| Failed (e : exn).
Arguments Returned {A} a.
Arguments HTTPException {A} status_code detail.
Arguments Failed {A} e.

Definition is_ascii (s : str) : bool := forallb (fun c => c <? 128) s.

(** [secrets.compare_digest] on two [str]: only ASCII strings can be
    compared. *)
Definition compare_digest (a b : str) : result bool :=
  if is_ascii a && is_ascii b then OK (str_eqb a b) else Raise TypeError.

Definition HTTP_401_UNAUTHORIZED : Z := 401.

Definition get_current_username (username password : str) : http str :=
  match compare_digest username (u "admin") with
  | Raise e => Failed e
  | OK correct_username =>
    match compare_digest password (u "admin") with
    | Raise e => Failed e
    | OK correct_password =>
      if negb (correct_username && correct_password)
      then HTTPException HTTP_401_UNAUTHORIZED (u "Неверные учетные данные")
      else Returned username
    end
  end.

(** [db.query(func.count(Task.id)).filter(...).scalar()] *)
Definition count_tasks (p : Task -> bool) (db : Db) : Z :=
  Z.of_nat (length (filter (fun '(_, task) => p task = true) (map_to_list (db_tasks db)))).

Definition assigned_to (usr : User) (task : Task) : bool :=
  opt_Z_eqb (task_assignee_id task) (Some (user_id usr)).

Definition created_by (usr : User) (task : Task) : bool :=
  opt_Z_eqb (task_creator_id task) (Some (user_id usr)).

Record UserStat := mk_user_stat {
  stat_username : option str;
  stat_created_tasks : Z;
  stat_assigned_tasks : Z;
  stat_completed_tasks : Z;
}.

(** The body of [for user in users]: the row that is appended, and the
    value it leaves in the variable [completed_tasks]. *)
Fixpoint user_stats_loop (db : Db) (users : list User) (completed_tasks : Z)
    : list UserStat * Z :=
  match users with
  | [] => ([], completed_tasks)
  | user :: rest =>
    let created_tasks := count_tasks (created_by user) db in
    let assigned_tasks := count_tasks (assigned_to user) db in
    let completed_tasks :=
      count_tasks (fun task => assigned_to user task && task_is_completed task) db in
    let '(stats, final) := user_stats_loop db rest completed_tasks in
    (mk_user_stat (user_username user) created_tasks assigned_tasks completed_tasks
       :: stats, final)
  end.

(** The completion rate before rendering: the integer 0 without tasks,
    else the float [round(completed / total * 100, 1)], kept as the two
    counts it is computed from. *)
Inductive rate :=
| RateZero
| RateOf (completed total : Z).

(** The arguments of [template.render] that are counts (the two charts
    are left out). *)
Record DashboardContext := mk_dashboard {
  ctx_total_tasks : Z;
  ctx_completed_tasks : Z;
  ctx_active_users : Z;
  ctx_completion_rate : rate;
  ctx_user_stats : list UserStat;
}.

Definition dashboard (db : Db) : DashboardContext :=
  let total_tasks := count_tasks (fun _ => true) db in
  let completed_tasks := count_tasks task_is_completed db in
  let active_users := Z.of_nat (length (db_users db)) in
  let completion_rate :=
    if 0 <? total_tasks then RateOf completed_tasks total_tasks else RateZero in
  let '(user_stats, completed_tasks) :=
    user_stats_loop db (db_users db) completed_tasks in
  mk_dashboard total_tasks completed_tasks active_users completion_rate user_stats.

(** A store for the samples: the second user has one open task. *)
Definition runtime0 : Runtime :=
  mk_runtime (fun users => 1 + Z.of_nat (length users))
             (fun tasks => 1 + Z.of_nat (size tasks))
             (fun due => str_of_int (dt_ordinal due)).

Definition db1 : Db :=
  mk_db [mk_user 1 100 (Some (u "anna")); mk_user 2 200 (Some (u "boris"))]
        {[ 1 := mk_task (u "Отчет") None None (u "pending") (u "medium")
                   (Some 1) (Some 1) true;
           2 := mk_task (u "Звонок") None None (u "pending") (u "high")
                   (Some 2) (Some 1) false ]}.

(** Decides [representable] on a closed input. *)
Ltac representable_by_computation :=
  unfold representable;
  match goal with
  | |- context [first_rule ?l ?rs] =>
    let v := eval vm_compute in (first_rule l rs) in
    change (first_rule l rs) with v
  end;
  cbv beta iota;
  cbn [rule_days rule_digits matched_number matched_digits m_group1
       from_option id digits_value length];
  try exact I;
  repeat split;
  try (vm_compute; discriminate);
  try (apply Nat.leb_le; vm_compute; reflexivity).

(** * Properties *)

(** ** Substrings *)

Lemma is_prefix_spec (p s : str) :
  is_prefix p s = true <-> exists post, s = p ++ post.
Proof.
  revert s. induction p as [|a p IH]; intros s; simpl.
  - split; eauto.
  - destruct s as [|b s]; simpl.
    + split; [discriminate | intros [post H]; discriminate].
    + rewrite andb_true_iff, Z.eqb_eq, IH. split.
      * intros [-> [post ->]]. eauto.
      * intros [post H]. injection H as -> ->. eauto.
Qed.

Lemma is_prefix_app (p post : str) : is_prefix p (p ++ post) = true.
Proof. apply is_prefix_spec. eauto. Qed.

Lemma str_in_spec (needle hay : str) :
  str_in needle hay = true <-> exists pre post, hay = pre ++ needle ++ post.
Proof.
  induction hay as [|c hay IH]; simpl.
  - rewrite orb_false_r, is_prefix_spec. split.
    + intros [post H]. exists [], post. exact H.
    + intros [pre [post H]]. destruct pre; simpl in H.
      * eauto.
      * discriminate.
  - rewrite orb_true_iff, is_prefix_spec, IH. split.
    + intros [[post H] | [pre [post H]]].
      * exists [], post. exact H.
      * exists (c :: pre), post. simpl. now rewrite H.
    + intros [pre [post H]]. destruct pre as [|c' pre]; simpl in H.
      * left. eauto.
      * right. injection H as _ H. eauto.
Qed.

(** Containment is transitive: a phrase inside a phrase inside the text. *)
Lemma str_in_trans (a b c : str) :
  str_in a b = true -> str_in b c = true -> str_in a c = true.
Proof.
  rewrite !str_in_spec. intros [p1 [q1 ->]] [p2 [q2 ->]].
  exists (p2 ++ p1), (q1 ++ q2). now rewrite <- !app_assoc.
Qed.

Lemma str_in_app (needle pre post : str) :
  str_in needle (pre ++ needle ++ post) = true.
Proof. apply str_in_spec. eauto. Qed.

(** ** [split] and [strip] *)

Lemma str_split_nonempty (sep : codepoint) (s : str) : str_split sep s <> [].
Proof.
  destruct s as [|c s]; simpl; [discriminate|].
  destruct (c =? sep); [discriminate|].
  destruct (str_split sep s); discriminate.
Qed.

(** Without the separator there is one segment, the string itself. *)
Lemma str_split_absent (sep : codepoint) (s : str) :
  ~ In sep s -> str_split sep s = [s].
Proof.
  induction s as [|c s IH]; simpl; intros Hn; [reflexivity|].
  destruct (Z.eqb_spec c sep) as [->|_].
  - exfalso. apply Hn. now left.
  - rewrite IH; [reflexivity|]. intros H. apply Hn. now right.
Qed.

(** The first segment is what stands before the first separator. *)
Lemma str_split_first (sep : codepoint) (pre rest : str) :
  ~ In sep pre ->
  str_split sep (pre ++ sep :: rest) = pre :: str_split sep rest.
Proof.
  induction pre as [|c pre IH]; simpl; intros Hn.
  - now rewrite Z.eqb_refl.
  - destruct (Z.eqb_spec c sep) as [->|_].
    + exfalso. apply Hn. now left.
    + rewrite IH; [reflexivity|]. intros H. apply Hn. now right.
Qed.

Section StripFacts.
Context `{U : Ucd}.

Lemma drop_while_nil (p : codepoint -> bool) (s : str) :
  drop_while p s = [] <-> forall c, In c s -> p c = true.
Proof.
  induction s as [|c s IH]; simpl.
  - split; [intros _ c [] | reflexivity].
  - destruct (p c) eqn:Hc.
    + rewrite IH. split.
      * intros H x [<-|Hx]; auto.
      * intros H x Hx. apply H. now right.
    + split; [discriminate|]. intros H.
      rewrite (H c) in Hc; [discriminate | now left].
Qed.

Lemma drop_while_incl (p : codepoint -> bool) (s : str) (c : codepoint) :
  In c (drop_while p s) -> In c s.
Proof.
  induction s as [|x s IH]; simpl; [tauto|].
  destruct (p x); simpl; tauto.
Qed.

Lemma drop_while_keeps (p : codepoint -> bool) (s : str) (c : codepoint) :
  In c s -> p c = false -> In c (drop_while p s).
Proof.
  induction s as [|x s IH]; simpl; [tauto|].
  intros [->|Hc] Hp.
  - rewrite Hp. now left.
  - destruct (p x); [auto | now right].
Qed.

(** [strip] leaves the empty string exactly for an all-whitespace one. *)
Lemma str_strip_nil (s : str) :
  str_strip s = [] <-> forall c, In c s -> ucd_isspace c = true.
Proof.
  unfold str_strip, str_rstrip, str_lstrip. split.
  - intros H c Hc.
    destruct (ucd_isspace c) eqn:Hsp; [reflexivity|].
    assert (Hr : drop_while ucd_isspace (rev (drop_while ucd_isspace s)) = []).
    { apply (f_equal (@rev _)) in H. now rewrite rev_involutive in H. }
    rewrite drop_while_nil in Hr.
    rewrite <- Hsp. apply Hr. rewrite <- in_rev.
    now apply drop_while_keeps.
  - intros H.
    assert (Hd : drop_while ucd_isspace s = []) by now apply drop_while_nil.
    now rewrite Hd.
Qed.

(** [strip] changes nothing when both ends are not whitespace. *)
Lemma str_strip_id (s : str) :
  (forall c, In c s -> ucd_isspace c = false) -> str_strip s = s.
Proof.
  intros H. unfold str_strip, str_rstrip, str_lstrip.
  assert (Hd : forall t : str,
    (forall c, In c t -> ucd_isspace c = false) -> drop_while ucd_isspace t = t).
  { intros [|x t] Ht; simpl; [reflexivity|]. rewrite (Ht x); [reflexivity | now left]. }
  rewrite (Hd s H), Hd, rev_involutive; [reflexivity|].
  intros c Hc. apply H. now apply in_rev.
Qed.
End StripFacts.

(** ** The matcher *)

Section MatcherFacts.
Context `{U : Ucd}.

Lemma rep_match_sound {A} (p : codepoint -> bool) (s : str) :
  forall lo hi (k : str -> option A) m,
  rep_match p lo hi s k = Some m ->
  exists w s1, s = w ++ s1 /\ forallb p w = true /\ (lo <= length w)%nat /\
    match hi with Some h => (length w <= h)%nat | None => True end /\
    k s1 = Some m.
Proof.
  induction s as [|c s IH]; intros lo hi k m H; simpl in H.
  - destruct lo; [|discriminate].
    exists [], []. repeat split; simpl; auto with arith. destruct hi; auto with arith.
  - assert (Hstop : match lo with O => k (c :: s) | S _ => None end = Some m ->
      exists w s1, c :: s = w ++ s1 /\ forallb p w = true /\ (lo <= length w)%nat /\
        match hi with Some h => (length w <= h)%nat | None => True end /\
        k s1 = Some m).
    { destruct lo; [|discriminate]. intros Hk.
      exists [], (c :: s). repeat split; simpl; auto with arith.
      destruct hi; auto with arith. }
    destruct (p c && hi_allows hi) eqn:Hc; [|auto].
    apply andb_true_iff in Hc as [Hpc Hhi].
    destruct (rep_match p (Nat.pred lo) (option_map Nat.pred hi) s k) as [m'|] eqn:Hr;
      [|auto].
    injection H as ->.
    destruct (IH _ _ _ _ Hr) as (w & s1 & -> & Hw & Hlo & Hh & Hk).
    exists (c :: w), s1. simpl. rewrite Hpc, Hw. repeat split; auto.
    + lia.
    + destruct hi as [[|h]|]; simpl in *; [discriminate | lia | exact I].
Qed.

(** The matcher only reports matches that the pattern allows. *)
Lemma match_here_sound {A} (r : regex) :
  forall s g (k : str -> option str -> option A) m,
  match_here r s g k = Some m ->
  exists w s1 g1, s = w ++ s1 /\ sem r w g g1 /\ k s1 g1 = Some m.
Proof.
  induction r as [|c|r1 IH1 r2 IH2|r1 IH1 r2 IH2|r1 IH1|c lo hi|r1 IH1];
    intros s g k m H; simpl in H.
  - exists [], s, g. simpl. auto.
  - destruct s as [|x s]; [discriminate|].
    destruct (Z.eqb_spec x c) as [->|]; [|discriminate].
    exists [c], s, g. simpl. auto.
  - apply IH1 in H as (w1 & s1 & g1 & -> & H1 & H).
    apply IH2 in H as (w2 & s2 & g2 & -> & H2 & H).
    exists (w1 ++ w2), s2, g2. rewrite <- app_assoc. repeat split; auto.
    simpl. exists w1, w2, g1. auto.
  - destruct (match_here r1 s g k) as [m1|] eqn:E1.
    + injection H as ->. apply IH1 in E1 as (w & s1 & g1 & -> & H1 & H).
      exists w, s1, g1. simpl. auto.
    + apply IH2 in H as (w & s1 & g1 & -> & H2 & H).
      exists w, s1, g1. simpl. auto.
  - destruct (match_here r1 s g k) as [m1|] eqn:E1.
    + injection H as ->. apply IH1 in E1 as (w & s1 & g1 & -> & H1 & H).
      exists w, s1, g1. simpl. auto.
    + exists [], s, g. simpl. auto.
  - apply rep_match_sound in H as (w & s1 & -> & Hw & Hlo & Hhi & Hk).
    exists w, s1, g. simpl. repeat split; auto.
  - apply IH1 in H as (w & s1 & g1 & -> & H1 & H).
    exists w, s1, (Some w). simpl. split; [reflexivity|]. split; [eauto|].
    rewrite length_app in H.
    replace (length w + length s1 - length s1)%nat with (length w) in H by lia.
    now rewrite firstn_app, Nat.sub_diag, firstn_all, app_nil_r in H.
Qed.

Lemma match_here_hit (r : regex) (s rest : str) (g : option str) :
  match_here r s None (fun rest g => Some (rest, g)) = Some (rest, g) ->
  exists w, s = w ++ rest /\ sem r w None g /\
    (length s - length rest)%nat = length w.
Proof.
  intros E. apply match_here_sound in E as (w & s1 & g1 & Hs & Hsem & Hk).
  injection Hk as -> ->. exists w. repeat split; auto.
  rewrite Hs, length_app. lia.
Qed.

Lemma search_from_sound (r : regex) (s : str) :
  forall i m, search_from r i s = Some m ->
  exists pre w post, s = pre ++ w ++ post /\ sem r w None (m_group1 m) /\
    m_start m = (i + length pre)%nat /\ m_end m = (m_start m + length w)%nat.
Proof.
  induction s as [|c s IH]; intros i m H; simpl in H;
    destruct (match_here r _ None (fun rest g => Some (rest, g)))
      as [[rest g]|] eqn:E; try discriminate.
  - injection H as <-. apply match_here_hit in E as (w & Hs & Hsem & Hlen).
    exists [], w, rest. simpl in *. rewrite Hlen. repeat split; auto.
  - injection H as <-. apply match_here_hit in E as (w & Hs & Hsem & Hlen).
    exists [], w, rest. simpl in *. rewrite Hlen. repeat split; auto; lia.
  - apply IH in H as (pre & w & post & -> & Hsem & Hst & Hen).
    exists (c :: pre), w, post. simpl. repeat split; auto. lia.
Qed.

(** A literal string matches exactly where it is a prefix. *)
Lemma match_here_RStr {A} (w : str) :
  forall s g (k : str -> option str -> option A),
  match_here (RStr w) s g k =
  if is_prefix w s then k (skipn (length w) s) g else None.
Proof.
  induction w as [|c w IH]; intros s g k; [reflexivity|].
  assert (Hlit : match_here (RLit c) s g (fun s1 g1 => match_here (RStr w) s1 g1 k)
    = if is_prefix (c :: w) s then k (skipn (length (c :: w)) s) g else None).
  { simpl. destruct s as [|x s]; [reflexivity|].
    rewrite (Z.eqb_sym c x). destruct (x =? c); simpl; [apply IH | reflexivity]. }
  destruct w as [|c' w]; [|exact Hlit].
  simpl. destruct s as [|x s]; [reflexivity|].
  rewrite (Z.eqb_sym c x). destruct (x =? c); simpl; [|reflexivity].
  reflexivity.
Qed.

(** Searching a literal string is the substring test. *)
Lemma search_from_RStr (w s : str) :
  forall i, search_from (RStr w) i s <> None <-> str_in w s = true.
Proof.
  induction s as [|c s IH]; intros i; simpl; rewrite match_here_RStr.
  - rewrite orb_false_r. destruct (is_prefix w []); split; congruence.
  - destruct (is_prefix w (c :: s)); simpl.
    + split; congruence.
    + apply IH.
Qed.

Lemma re_search_RStr (w s : str) :
  re_search (RStr w) s <> None <-> str_in w s = true.
Proof. apply search_from_RStr. Qed.
End MatcherFacts.

Lemma take_drop_while (p : codepoint -> bool) (s : str) :
  take_while p s ++ drop_while p s = s.
Proof.
  induction s as [|c s IH]; simpl; [reflexivity|].
  destruct (p c); simpl; [now rewrite IH | reflexivity].
Qed.

Lemma take_while_all (p : codepoint -> bool) (w rest : str) :
  forallb p w = true ->
  match rest with x :: _ => p x = false | [] => True end ->
  take_while p (w ++ rest) = w.
Proof.
  intros Hw Hr. induction w as [|c w IH]; simpl in *.
  - destruct rest as [|x rest]; simpl; [reflexivity | now rewrite Hr].
  - apply andb_true_iff in Hw as [Hc Hw]. rewrite Hc. now rewrite IH.
Qed.

Section GroupFacts.
Context `{U : Ucd}.

(** A pattern without a group leaves group 1 as it finds it. *)
Lemma sem_group_free (r : regex) :
  forall w g g', group_free r = true -> sem r w g g' -> g' = g.
Proof.
  induction r as [|c|r1 IH1 r2 IH2|r1 IH1 r2 IH2|r1 IH1|c lo hi|r1 IH1];
    intros w g g' Hf H; simpl in *.
  - tauto.
  - tauto.
  - apply andb_true_iff in Hf as [Hf1 Hf2].
    destruct H as (w1 & w2 & g1 & _ & H1 & H2).
    rewrite (IH2 _ _ _ Hf2 H2). eauto.
  - apply andb_true_iff in Hf as [Hf1 Hf2]. destruct H; eauto.
  - destruct H as [H|[_ H]]; eauto.
  - tauto.
  - discriminate.
Qed.

(** In [a(\d+)b] with no other group, group 1 is a run of digits. *)
Lemma sem_digit_group (a b : regex) (lo : nat) (hi : option nat)
    (w : str) (g g' : option str) :
  group_free a = true -> group_free b = true ->
  sem (RSeq a (RSeq (RGroup (RRep CDigit lo hi)) b)) w g g' ->
  exists ds, g' = Some ds /\ forallb (cclass_mem CDigit) ds = true /\
             (lo <= length ds)%nat.
Proof.
  intros Ha Hb (w1 & w2 & g1 & _ & _ & (w3 & w4 & g2 & _ & Hg & H4)).
  destruct Hg as (g3 & (Hds & Hlo & _) & ->).
  exists w3. rewrite (sem_group_free b _ _ _ Hb H4). auto.
Qed.

Lemma int_digits_value (ds : str) :
  forall acc, forallb (cclass_mem CDigit) ds = true ->
  int_digits acc ds = OK (digits_value acc ds).
Proof.
  induction ds as [|c ds IH]; intros acc H; simpl in *; [reflexivity|].
  apply andb_true_iff in H as [Hc H].
  destruct (ucd_decimal c) as [d|]; [|discriminate]. simpl. now apply IH.
Qed.

Lemma digits_value_nonneg (ds : str) :
  forall acc, 0 <= acc -> 0 <= digits_value acc ds.
Proof.
  induction ds as [|c ds IH]; intros acc H; simpl; [exact H|].
  apply IH. lia.
Qed.

(** [int] of a digit run of at most 4300 characters is its value. *)
Lemma py_int_digits (ds : str) :
  (1 <= length ds)%nat -> (length ds <= int_max_str_digits)%nat ->
  forallb (cclass_mem CDigit) ds = true ->
  py_int ds = OK (digits_value 0 ds).
Proof.
  intros H1 H2 Hd. unfold py_int.
  destruct ds as [|c ds]; [simpl in H1; lia|].
  destruct (Nat.ltb_spec int_max_str_digits (length (c :: ds))); [lia|].
  now apply int_digits_value.
Qed.
End GroupFacts.

(** The matcher on sample inputs: the span and group 1 that [re.search]
    reports. *)
Example search_literal_date :
  re_search re_k (u "к 5ому мая и завтра") = Some (mk_match 0 10 (Some (u "5ому мая"))) /\
  re_search re_do (u "до 7ого июня") = Some (mk_match 0 12 (Some (u "7ого июня"))) /\
  re_search re_do (u "до 15 мая через 3 недели") = Some (mk_match 0 9 (Some (u "15 мая"))) /\
  re_search re_k (u "к 123 мая") = None /\
  re_search re_k (u "к 12ому  мая") = None /\
  re_search re_do (u "до пятницы") = None.
Proof. repeat split; vm_compute; reflexivity. Qed.

Example search_counted :
  re_search re_in_days (u "сделать через 12 дней. не срочно")
    = Some (mk_match 8 21 (Some (u "12"))) /\
  re_search re_in_weeks (u "через 3 недели") = Some (mk_match 0 14 (Some (u "3"))) /\
  re_search re_in_days (u "через 3 недели") = None /\
  re_search re_tomorrow (str_lower text_report) = Some (mk_match 36 42 None) /\
  re_search mention_pattern (u "a@@x_1 @y") = Some (mk_match 2 6 (Some (u "x_1"))).
Proof. repeat split; vm_compute; reflexivity. Qed.

(** ** The loop over [date_patterns] *)

Lemma date_rules_unfold :
  date_rules =
  [(re_k, LiteralDate); (re_do, LiteralDate); (re_tomorrow, Tomorrow);
   (re_next_week, NextWeek); (re_in_days, InDays); (re_in_weeks, InWeeks)].
Proof. reflexivity. Qed.

Lemma date_rules_of_patterns :
  date_rules = map (fun p => (pat_re p, rule_of_src (pat_src p))) date_patterns.
Proof. reflexivity. Qed.

Section DateLoop.
Context `{U : Ucd}.

(** The loop is the scan for the first matching pattern, followed by the
    computation of its rule. *)
Lemma date_loop_rules (E : Env) (text : str) (patterns : list pattern) :
  date_loop E text patterns =
  match first_rule (str_lower text)
          (map (fun p => (pat_re p, rule_of_src (pat_src p))) patterns) with
  | None => OK None
  | Some (rule, m) => run_rule E rule m
  end.
Proof.
  induction patterns as [|p ps IH]; [reflexivity|].
  cbn [date_loop map first_rule].
  destruct (re_search (pat_re p) (str_lower text)) as [m|]; [|exact IH].
  unfold rule_of_src.
  destruct (String.eqb (pat_src p) "завтра"); [reflexivity|].
  destruct (String.eqb (pat_src p) "на следующей неделе"); [reflexivity|].
  destruct (String.eqb (pat_src p) "через (\d+) (?:день|дня|дней)");
    [reflexivity|].
  destruct (String.eqb (pat_src p) "через (\d+) (?:неделю|недели|недель)");
    reflexivity.
Qed.

Lemma extract_due_date_rules (E : Env) (text : str) :
  extract_due_date E text =
  match first_rule (str_lower text) date_rules with
  | None => OK None
  | Some (rule, m) => run_rule E rule m
  end.
Proof. unfold extract_due_date. now rewrite date_loop_rules, date_rules_of_patterns. Qed.

Lemma first_rule_In (lowered : str) (rules : list (regex * date_rule)) :
  forall rule m, first_rule lowered rules = Some (rule, m) ->
  exists r, In (r, rule) rules /\ re_search r lowered = Some m.
Proof.
  induction rules as [|[r0 rule0] rules IH]; intros rule m H; simpl in H;
    [discriminate|].
  destruct (re_search r0 lowered) as [m0|] eqn:E0.
  - injection H as -> ->. exists r0. split; [now left | exact E0].
  - destruct (IH _ _ H) as (r & Hin & Hr). exists r. split; [now right | exact Hr].
Qed.

(** A match of one of the two "через N ..." patterns carries the digits
    of N in group 1. *)
Lemma counted_rule_group (lowered : str) (rule : date_rule) (m : re_match) :
  first_rule lowered date_rules = Some (rule, m) ->
  rule = InDays \/ rule = InWeeks ->
  exists ds, m_group1 m = Some ds /\ (1 <= length ds)%nat /\
             forallb (cclass_mem CDigit) ds = true.
Proof.
  intros H Hrule. apply first_rule_In in H as (r & Hin & Hs).
  apply search_from_sound in Hs as (pre & w & post & _ & Hsem & _).
  rewrite date_rules_unfold in Hin.
  assert (Hr : r = re_in_days \/ r = re_in_weeks).
  { simpl in Hin.
    destruct Hin as [Hp|[Hp|[Hp|[Hp|[Hp|[Hp|[]]]]]]];
      injection Hp as <- <-; destruct Hrule; try discriminate; auto. }
  destruct Hr as [-> | ->];
    apply sem_digit_group in Hsem as (ds & Hg & Hd & Hlen); eauto.
Qed.

(** Under [representable], the computation of the rule gives the date
    of the reference algorithm. *)
Lemma run_rule_representable (E : Env) (lowered : str) (rule : date_rule)
    (m : re_match) :
  first_rule lowered date_rules = Some (rule, m) ->
  match rule_days rule m with
  | None => True
  | Some d =>
    (rule_digits rule m <= int_max_str_digits)%nat /\
    d <= MAX_DELTA_DAYS /\
    1 <= dt_ordinal (datetime_now E) + d <= MAXORDINAL
  end ->
  run_rule E rule m = OK (option_map (plus_days (datetime_now E)) (rule_days rule m)).
Proof.
  intros Hfirst Hrep.
  assert (Hadd : forall d, 0 <= d -> d <= MAX_DELTA_DAYS ->
    1 <= dt_ordinal (datetime_now E) + d <= MAXORDINAL ->
    forall days weeks, days + 7 * weeks = d ->
    (do delta <- timedelta_of days weeks;
     do due <- datetime_add (datetime_now E) delta;
     OK (Some due)) = OK (Some (plus_days (datetime_now E) d))).
  { intros d H0 H1 H2 days weeks <-. unfold timedelta_of.
    destruct (Z.leb_spec (Z.abs (days + 7 * weeks)) MAX_DELTA_DAYS); [|lia].
    simpl. unfold datetime_add. simpl.
    destruct (Z.leb_spec 1 (dt_ordinal (datetime_now E) + (days + 7 * weeks))); [|lia].
    destruct (Z.leb_spec (dt_ordinal (datetime_now E) + (days + 7 * weeks)) MAXORDINAL);
      [reflexivity | lia]. }
  assert (Hnum : rule = InDays \/ rule = InWeeks ->
    (rule_digits rule m <= int_max_str_digits)%nat ->
    int_group1 m = OK (matched_number m) /\ 0 <= matched_number m).
  { intros Hrule Hlen.
    assert (Hlen' : (length (matched_digits m) <= int_max_str_digits)%nat)
      by (destruct Hrule; subst rule; exact Hlen).
    clear Hlen.
    destruct (counted_rule_group _ _ _ Hfirst Hrule) as (ds & Hg & H1 & Hd).
    unfold int_group1, matched_number, matched_digits in *. rewrite Hg in *. simpl in *.
    split; [now apply py_int_digits | now apply digits_value_nonneg]. }
  destruct rule; cbn [run_rule rule_days rule_digits option_map] in *.
  - reflexivity.
  - destruct Hrep as (_ & H1 & H2). apply (Hadd 1); auto; lia.
  - destruct Hrep as (_ & H1 & H2). apply (Hadd 7); auto; lia.
  - destruct Hrep as (Hlen & H1 & H2).
    destruct Hnum as [-> Hpos]; auto. cbn [bind].
    apply (Hadd (matched_number m)); auto; lia.
  - destruct Hrep as (Hlen & H1 & H2).
    destruct Hnum as [-> Hpos]; auto. cbn [bind].
    apply (Hadd (7 * matched_number m)); auto; lia.
Qed.

(** The rule "завтра": the text holds the word and neither literal date
    pattern matches. *)
Lemma tomorrow_rule (E : Env) (text : str) :
  str_in (u "завтра") (str_lower text) = true ->
  re_search re_k (str_lower text) = None ->
  re_search re_do (str_lower text) = None ->
  1 <= dt_ordinal (datetime_now E) + 1 <= MAXORDINAL ->
  extract_due_date E text = OK (Some (plus_days (datetime_now E) 1)).
Proof.
  intros Hin Hk Hdo Hrange.
  rewrite extract_due_date_rules.
  destruct (re_search re_tomorrow (str_lower text)) as [m|] eqn:Hm.
  - assert (F : first_rule (str_lower text) date_rules = Some (Tomorrow, m)).
    { rewrite date_rules_unfold. cbn [first_rule]. now rewrite Hk, Hdo, Hm. }
    rewrite F. rewrite (run_rule_representable E _ _ _ F); [reflexivity|].
    simpl. unfold int_max_str_digits, MAX_DELTA_DAYS. lia.
  - exfalso. apply (re_search_RStr (u "завтра") (str_lower text)); assumption.
Qed.
End DateLoop.

(** ** The fields of [extract_task_info] *)

Section Fields.
Context `{U : Ucd}.

(** The tuple is made of the four blocks; only the due date can raise. *)
Lemma extract_task_info_steps (E : Env) (text : str) :
  extract_task_info E text =
  (do due_date <- extract_due_date E text;
   OK (extract_title text, extract_description text, due_date,
       extract_priority text)).
Proof. reflexivity. Qed.

Lemma extract_task_info_returns (E : Env) (text : str) (due : option datetime) :
  extract_due_date E text = OK due ->
  extract_task_info E text =
  OK (extract_title text, extract_description text, due, extract_priority text).
Proof. intros H. rewrite extract_task_info_steps, H. reflexivity. Qed.

(** The first segment of [split] is the text before the first separator. *)
Lemma str_split_head (sep : codepoint) (s : str) :
  nth 0 (str_split sep s) [] = take_while (fun c => negb (c =? sep)) s.
Proof.
  induction s as [|c s IH]; simpl; [reflexivity|].
  destruct (c =? sep); simpl; [reflexivity|].
  destruct (str_split sep s) as [|seg segs] eqn:Hs.
  - now destruct (str_split_nonempty sep s).
  - simpl in *. now rewrite IH.
Qed.

Lemma extract_priority_cases (text : str) :
  extract_priority text =
  if existsb (fun indicator => str_in indicator (str_lower text)) high_indicators
  then u "high"
  else if existsb (fun indicator => str_in indicator (str_lower text)) low_indicators
       then u "low"
       else u "medium".
Proof. reflexivity. Qed.
End Fields.

(** ** C1 *)

(** C1, as the specification states it, fails: for the input
    "Создать задачу: Подготовить отчет к завтрашнему дню. Важно!" the due
    date is not absent.  "завтрашнему" begins with "завтра", [re.search]
    finds the pattern "завтра" inside it, and the due date is one day after
    the clock reading. *)
Lemma report_due_date_counterexample :
  extract_task_info env0 text_report =
    OK (u "Создать задачу: Подготовить отчет к завтрашнему дню", u "Важно!",
        Some (mk_datetime 739001 43200000000), u "high") /\
  extract_task_info env0 text_report <>
    OK (u "Создать задачу: Подготовить отчет к завтрашнему дню", u "Важно!",
        None, u "high").
Proof. split; [vm_compute; reflexivity | vm_compute; discriminate]. Qed.

(** C1 (amended).  For that input and every clock reading before the last
    day of the year 9999, [extract_task_info] returns the title
    "Создать задачу: Подготовить отчет к завтрашнему дню", the description
    "Важно!", the priority "high" and the due date now + 1 day. *)
Theorem report_extraction (E : Env) :
  1 <= dt_ordinal (datetime_now E) + 1 <= MAXORDINAL ->
  extract_task_info E text_report =
  OK (u "Создать задачу: Подготовить отчет к завтрашнему дню", u "Важно!",
      Some (plus_days (datetime_now E) 1), u "high").
Proof.
  intros Hrange.
  rewrite (extract_task_info_returns E text_report
             (Some (plus_days (datetime_now E) 1))).
  - vm_compute. reflexivity.
  - apply tomorrow_rule; [vm_compute; reflexivity .. | exact Hrange].
Qed.

Lemma report_extraction_witness :
  extract_task_info env0 text_report =
  OK (u "Создать задачу: Подготовить отчет к завтрашнему дню", u "Важно!",
      Some (plus_days (datetime_now env0) 1), u "high").
Proof. apply (report_extraction env0). vm_compute. split; discriminate. Defined.

(** ** C2 *)

(** C2, as stated, fails: the input "." is not empty and its title is the
    empty string.  There is no fallback to the whole input. *)
Lemma title_empty_counterexample :
  u "." <> [] /\
  extract_task_info env0 (u ".") = OK ([], [], None, u "medium").
Proof. split; [vm_compute; discriminate | vm_compute; reflexivity]. Qed.

(** C2 (amended).  The title is the text before the first period, trimmed,
    and nothing else: it is non-empty exactly when that text has a
    character that is not white space.  For an input without a period the
    title is the whole input trimmed and the description is empty; an
    input made only of characters that are neither periods nor white space
    is its own title.  [extract_task_info] returns this title whenever the
    due-date step returns. *)
Theorem title_is_first_segment `{U : Ucd} (E : Env) (text : str) :
  let first := take_while (fun c => negb (c =? ch ".")) text in
  extract_title text = str_strip first /\
  (extract_title text <> [] <-> exists c, In c first /\ ucd_isspace c = false) /\
  (~ In (ch ".") text ->
   extract_title text = str_strip text /\ extract_description text = []) /\
  ((forall c, In c text -> c <> ch "." /\ ucd_isspace c = false) ->
   extract_title text = text) /\
  (forall due, extract_due_date E text = OK due ->
   exists description priority,
     extract_task_info E text = OK (str_strip first, description, due, priority)).
Proof.
  intros first.
  assert (Ht : extract_title text = str_strip first).
  { unfold extract_title. now rewrite str_split_head. }
  assert (Hnp : ~ In (ch ".") text ->
    extract_title text = str_strip text /\ extract_description text = []).
  { intros Hn. unfold extract_title, extract_description.
    now rewrite (str_split_absent _ _ Hn). }
  repeat split.
  - exact Ht.
  - intros Hne. rewrite Ht in Hne.
    destruct (existsb (fun c => negb (ucd_isspace c)) first) eqn:Hex.
    + apply existsb_exists in Hex as (c & Hc & Hsp).
      exists c. split; [exact Hc | now apply negb_true_iff].
    + exfalso. apply Hne. apply str_strip_nil. intros c Hc.
      destruct (ucd_isspace c) eqn:Hsp; [reflexivity|].
      assert (existsb (fun c => negb (ucd_isspace c)) first = true)
        by (apply existsb_exists; exists c; now rewrite Hsp).
      congruence.
  - intros (c & Hc & Hsp) Hnil. rewrite Ht in Hnil.
    rewrite (proj1 (str_strip_nil first) Hnil c Hc) in Hsp. discriminate.
  - now apply Hnp.
  - now apply Hnp.
  - intros Hall.
    assert (Hn : ~ In (ch ".") text) by (intros Hin; now destruct (Hall _ Hin)).
    rewrite (proj1 (Hnp Hn)). apply str_strip_id. intros c Hc. apply (Hall c Hc).
  - intros due Hdue. exists (extract_description text), (extract_priority text).
    rewrite <- Ht. now apply extract_task_info_returns.
Qed.

Lemma title_is_first_segment_witness :
  extract_title (u "?!") = u "?!" /\
  extract_title (u " купить хлеб ") = u "купить хлеб" /\
  exists description priority,
    extract_task_info env0 (u "Позвонить. Срочно") =
    OK (u "Позвонить", description, None, priority).
Proof.
  split; [|split].
  - apply (title_is_first_segment env0 (u "?!")).
    intros c Hc. vm_compute in Hc.
    destruct Hc as [<-|[<-|[]]]; split; (discriminate || reflexivity).
  - destruct (title_is_first_segment env0 (u " купить хлеб ")) as (_ & _ & H & _).
    destruct H as [-> _]; [|vm_compute; reflexivity].
    vm_compute. intros H. repeat (destruct H as [H|H]; [discriminate|]). exact H.
  - destruct (title_is_first_segment env0 (u "Позвонить. Срочно")) as (_ & _ & _ & _ & H).
    destruct (H None) as (d & p & ->); [vm_compute; reflexivity|].
    exists d, p. vm_compute. reflexivity.
Defined.

(** ** C3 *)

(** C3, as stated, fails: for "через 1000000000 дней" the reference
    algorithm asks for now + 1000000000 days, and the code builds
    [timedelta(days=1000000000)], which raises [OverflowError]; no due
    date and no tuple is returned. *)
Lemma due_date_overflow_counterexample :
  ref_due_date (datetime_now env0) (u "через 1000000000 дней") =
    Some (plus_days (datetime_now env0) 1000000000) /\
  extract_due_date env0 (u "через 1000000000 дней") = Raise OverflowError /\
  extract_task_info env0 (u "через 1000000000 дней") = Raise OverflowError.
Proof. repeat split; vm_compute; reflexivity. Qed.

(** C3 (amended).  Whenever the date that the reference algorithm asks for
    is representable, the due date of [extract_task_info] is the one of
    the reference algorithm: the patterns are tried in list order against
    the lower-cased input and the first that matches anywhere governs;
    "завтра" gives now + 1 day, "на следующей неделе" now + 7 days,
    "через N день/дня/дней" now + N days, "через N неделю/недели/недель"
    now + N weeks; a match of one of the two literal patterns stops the
    scan without a date; without a match the due date is absent.  Hence
    for an input with "завтра" that neither literal pattern matches, the
    due date is now + 1 day. *)
Theorem due_date_refines_reference `{U : Ucd} (E : Env) (text : str) :
  representable (datetime_now E) text ->
  extract_due_date E text = OK (ref_due_date (datetime_now E) text) /\
  extract_task_info E text =
    OK (extract_title text, extract_description text,
        ref_due_date (datetime_now E) text, extract_priority text) /\
  (str_in (u "завтра") (str_lower text) = true ->
   re_search re_k (str_lower text) = None ->
   re_search re_do (str_lower text) = None ->
   extract_due_date E text = OK (Some (plus_days (datetime_now E) 1))).
Proof.
  intros Hrep.
  assert (Hdue : extract_due_date E text = OK (ref_due_date (datetime_now E) text)).
  { rewrite extract_due_date_rules. unfold representable, ref_due_date in *.
    destruct (first_rule (str_lower text) date_rules) as [[rule m]|] eqn:F;
      [|reflexivity].
    now apply (run_rule_representable E (str_lower text)). }
  split; [exact Hdue|]. split.
  - now apply extract_task_info_returns.
  - intros Hin Hk Hdo. rewrite Hdue. unfold ref_due_date.
    destruct (re_search re_tomorrow (str_lower text)) as [m|] eqn:Hm.
    + rewrite date_rules_unfold. cbn [first_rule]. now rewrite Hk, Hdo, Hm.
    + exfalso. apply (re_search_RStr (u "завтра") (str_lower text)); assumption.
Qed.

Lemma due_date_refines_reference_witness :
  extract_due_date env0 (u "Сдать отчет через 2 недели, завтра созвон") =
    OK (Some (mk_datetime 739001 43200000000)) /\
  extract_due_date env0 (u "Сдать отчет через 2 недели") =
    OK (Some (mk_datetime 739014 43200000000)) /\
  extract_due_date env0 (u "Завтра к 5 мая") = OK None /\
  extract_due_date env0 (u "Оплатить счет на следующей неделе или завтра") =
    OK (Some (plus_days (datetime_now env0) 1)).
Proof.
  split; [|split; [|split]].
  - destruct (due_date_refines_reference env0
               (u "Сдать отчет через 2 недели, завтра созвон")) as (-> & _).
    + representable_by_computation.
    + vm_compute. reflexivity.
  - destruct (due_date_refines_reference env0
               (u "Сдать отчет через 2 недели")) as (-> & _).
    + representable_by_computation.
    + vm_compute. reflexivity.
  - destruct (due_date_refines_reference env0 (u "Завтра к 5 мая")) as (-> & _).
    + representable_by_computation.
    + vm_compute. reflexivity.
  - destruct (due_date_refines_reference env0
               (u "Оплатить счет на следующей неделе или завтра")) as (_ & _ & H).
    + representable_by_computation.
    + apply H; vm_compute; reflexivity.
Defined.

(** ** C4 *)

(** C4.  The two tables are checked in order, high before low, over the
    lower-cased input, and both are consulted: an input with a
    high-priority phrase has priority "high", whatever low-priority
    phrases it also has; an input with no high-priority phrase and with a
    low-priority phrase has priority "low"; an input with no phrase of
    either table has priority "medium".  So the priority is "low" exactly
    when the low table matches and the high table does not.  This priority
    is the one in the tuple that [extract_task_info] returns. *)
Theorem priority_high_before_low `{U : Ucd} (E : Env) (text : str) :
  ((exists ind, In ind high_indicators /\ str_in ind (str_lower text) = true) ->
   extract_priority text = u "high") /\
  ((forall ind, In ind high_indicators -> str_in ind (str_lower text) = false) ->
   (exists ind, In ind low_indicators /\ str_in ind (str_lower text) = true) ->
   extract_priority text = u "low") /\
  ((forall ind, In ind (high_indicators ++ low_indicators) ->
                str_in ind (str_lower text) = false) ->
   extract_priority text = u "medium") /\
  (extract_priority text = u "low" <->
   (forall ind, In ind high_indicators -> str_in ind (str_lower text) = false) /\
   (exists ind, In ind low_indicators /\ str_in ind (str_lower text) = true)) /\
  (forall due, extract_due_date E text = OK due ->
   extract_task_info E text =
   OK (extract_title text, extract_description text, due, extract_priority text)).
Proof.
  assert (Hno : forall l,
    (forall i, In i l -> str_in i (str_lower text) = false) ->
    existsb (fun i => str_in i (str_lower text)) l = false).
  { intros l Hl. destruct (existsb _ l) eqn:Hex; [|reflexivity].
    apply existsb_exists in Hex as (i & Hi & Hs).
    rewrite (Hl i Hi) in Hs. discriminate. }
  assert (Hyes : forall l,
    (exists i, In i l /\ str_in i (str_lower text) = true) ->
    existsb (fun i => str_in i (str_lower text)) l = true).
  { intros l (i & Hi & Hs). apply existsb_exists. eauto. }
  assert (Hoff : forall l,
    existsb (fun i => str_in i (str_lower text)) l = false ->
    forall i, In i l -> str_in i (str_lower text) = false).
  { intros l Hex i Hi. destruct (str_in i (str_lower text)) eqn:Hs; [|reflexivity].
    rewrite (Hyes l) in Hex; [discriminate|]. eauto. }
  split; [|split; [|split; [|split]]].
  - intros Hhigh. rewrite extract_priority_cases.
    now rewrite (Hyes _ Hhigh).
  - intros Hnone Hlow. rewrite extract_priority_cases.
    now rewrite (Hno _ Hnone), (Hyes _ Hlow).
  - intros Hnone. rewrite extract_priority_cases.
    rewrite (Hno high_indicators), (Hno low_indicators); [reflexivity | |];
      intros i Hi; apply Hnone, in_or_app; auto.
  - rewrite extract_priority_cases. split.
    + destruct (existsb _ high_indicators) eqn:Hh.
      { intros Heq. vm_compute in Heq. discriminate Heq. }
      destruct (existsb _ low_indicators) eqn:Hl.
      * intros _. split; [exact (Hoff _ Hh)|].
        apply existsb_exists in Hl. exact Hl.
      * intros Heq. vm_compute in Heq. discriminate Heq.
    + intros [Hnone Hlow]. now rewrite (Hno _ Hnone), (Hyes _ Hlow).
  - intros due. apply extract_task_info_returns.
Qed.

Lemma priority_high_before_low_witness :
  extract_priority (u "Когда будет время, но это ВАЖНО") = u "high" /\
  extract_priority (u "Полить цветы, когда будет время") = u "low" /\
  extract_priority (u "Купить хлеб") = u "medium" /\
  extract_task_info env0 (u "Срочно. Низкий приоритет") =
    OK (u "Срочно", u "Низкий приоритет", None, u "high").
Proof.
  split; [|split; [|split]].
  - apply (priority_high_before_low env0). exists (u "важно").
    split; [vm_compute; tauto | vm_compute; reflexivity].
  - destruct (priority_high_before_low env0 (u "Полить цветы, когда будет время"))
      as (_ & H & _).
    apply H.
    + intros ind Hin. vm_compute in Hin.
      repeat (destruct Hin as [<-|Hin]; [vm_compute; reflexivity|]). destruct Hin.
    + exists (u "когда будет время").
      split; [vm_compute; tauto | vm_compute; reflexivity].
  - destruct (priority_high_before_low env0 (u "Купить хлеб")) as (_ & _ & H & _).
    apply H. intros ind Hin. vm_compute in Hin.
    repeat (destruct Hin as [<-|Hin]; [vm_compute; reflexivity|]). destruct Hin.
  - destruct (priority_high_before_low env0 (u "Срочно. Низкий приоритет"))
      as (_ & _ & _ & _ & H).
    rewrite (H None); vm_compute; reflexivity.
Defined.

(** ** C5 *)

(** C5.  Matching is substring containment, and "не срочно" contains
    "срочно", "не приоритетная" contains "приоритетная": an input whose
    lower-cased text has one of these two low-priority phrases has
    priority "high", not "low".  The priority "low" is only reached with
    "низкий приоритет" or "когда будет время" (and no high-priority
    phrase). *)
Theorem negated_phrases_are_high `{U : Ucd} (E : Env) (text : str) :
  (str_in (u "не срочно") (str_lower text) = true \/
   str_in (u "не приоритетная") (str_lower text) = true ->
   extract_priority text = u "high" /\ extract_priority text <> u "low") /\
  (extract_priority text = u "low" ->
   (str_in (u "низкий приоритет") (str_lower text) = true \/
    str_in (u "когда будет время") (str_lower text) = true) /\
   forall ind, In ind high_indicators -> str_in ind (str_lower text) = false) /\
  (forall due, extract_due_date E text = OK due ->
   extract_task_info E text =
   OK (extract_title text, extract_description text, due, extract_priority text)).
Proof.
  assert (Hneg : str_in (u "не срочно") (str_lower text) = true \/
                 str_in (u "не приоритетная") (str_lower text) = true ->
    existsb (fun i => str_in i (str_lower text)) high_indicators = true).
  { intros [H|H]; apply existsb_exists.
    - exists (u "срочно"). split; [vm_compute; tauto|].
      apply (str_in_trans _ (u "не срочно")); [vm_compute; reflexivity | exact H].
    - exists (u "приоритетная"). split; [vm_compute; tauto|].
      apply (str_in_trans _ (u "не приоритетная")); [vm_compute; reflexivity | exact H]. }
  split; [|split].
  - intros H. rewrite extract_priority_cases, (Hneg H).
    split; [reflexivity | vm_compute; discriminate].
  - rewrite extract_priority_cases.
    destruct (existsb _ high_indicators) eqn:Hh; [vm_compute; discriminate|].
    destruct (existsb _ low_indicators) eqn:Hl; [|vm_compute; discriminate].
    intros _. split.
    + apply existsb_exists in Hl as (i & Hi & Hs).
      unfold low_indicators in Hi. cbn [In] in Hi.
      destruct Hi as [<-|[<-|[<-|[<-|[]]]]].
      * left. exact Hs.
      * discriminate (Hneg (or_introl Hs)).
      * right. exact Hs.
      * discriminate (Hneg (or_intror Hs)).
    + intros ind Hin. destruct (str_in ind (str_lower text)) eqn:Hs; [|reflexivity].
      assert (existsb (fun i => str_in i (str_lower text)) high_indicators = true)
        by (apply existsb_exists; eauto).
      congruence.
  - intros due. apply extract_task_info_returns.
Qed.

Lemma negated_phrases_are_high_witness :
  extract_priority (u "Это не срочно") = u "high" /\
  (str_in (u "низкий приоритет") (str_lower (u "Низкий приоритет, потом")) = true \/
   str_in (u "когда будет время") (str_lower (u "Низкий приоритет, потом")) = true).
Proof.
  split.
  - apply (negated_phrases_are_high env0 (u "Это не срочно")).
    left. vm_compute. reflexivity.
  - apply (negated_phrases_are_high env0 (u "Низкий приоритет, потом")).
    vm_compute. reflexivity.
Defined.

(** ** C6 *)

Lemma firstn_take_while (p : codepoint -> bool) (s : str) :
  firstn (length s - length (drop_while p s)) s = take_while p s.
Proof.
  rewrite <- (take_drop_while p s) at 1 3.
  rewrite length_app.
  replace (length (take_while p s) + length (drop_while p s)
           - length (drop_while p s))%nat with (length (take_while p s)) by lia.
  now rewrite firstn_app, Nat.sub_diag, firstn_all, app_nil_r.
Qed.

Section MentionFacts.
Context `{U : Ucd}.

(** With nothing after it that can fail, [c*] takes the longest run. *)
Lemma rep_match_star_total {A} (p : codepoint -> bool) (k : str -> option A) :
  (forall s, k s <> None) ->
  forall s, rep_match p 0 None s k = k (drop_while p s).
Proof.
  intros Hk. induction s as [|c s IH]; simpl; [reflexivity|].
  destruct (p c); simpl; [|reflexivity].
  rewrite IH. destruct (k (drop_while p s)) eqn:Hd; [reflexivity|].
  now destruct (Hk (drop_while p s)).
Qed.

Lemma rep_match_plus_total {A} (p : codepoint -> bool) (k : str -> option A) :
  (forall s, k s <> None) ->
  forall s, rep_match p 1 None s k =
  match s with
  | c :: s' => if p c then k (drop_while p s') else None
  | [] => None
  end.
Proof.
  intros Hk [|c s]; simpl; [reflexivity|].
  destruct (p c); simpl; [|reflexivity].
  rewrite (rep_match_star_total p k Hk).
  destruct (k (drop_while p s)) eqn:Hd; [reflexivity|].
  now destruct (Hk (drop_while p s)).
Qed.

(** One attempt of the mention pattern at the head of [s]. *)
Lemma match_here_mention (s : str) :
  match_here mention_pattern s None (fun rest g => Some (rest, g)) =
  match s with
  | c :: x :: s' =>
    if (c =? ch "@") && ucd_isword x
    then Some (drop_while ucd_isword s', Some (take_while ucd_isword (x :: s')))
    else None
  | _ => None
  end.
Proof.
  destruct s as [|c s]; [reflexivity|].
  change (match_here mention_pattern (c :: s) None (fun rest g => Some (rest, g)))
    with (if c =? ch "@"
          then rep_match ucd_isword 1 None s
                 (fun s1 => Some (s1, Some (firstn (length s - length s1) s)))
          else None).
  destruct (c =? ch "@"); simpl; [|now destruct s].
  rewrite rep_match_plus_total by discriminate.
  destruct s as [|x s']; [reflexivity|].
  destruct (ucd_isword x) eqn:Hx; [|reflexivity].
  f_equal. f_equal. f_equal.
  pose proof (firstn_take_while ucd_isword (x :: s')) as H.
  cbn [drop_while take_while] in H. rewrite Hx in H. exact H.
Qed.

Lemma search_from_mention (s : str) :
  forall i, search_from mention_pattern i s ≫= m_group1 = first_mention s.
Proof.
  induction s as [|c s IH]; intros i; [reflexivity|].
  cbn [search_from first_mention]. rewrite match_here_mention.
  destruct s as [|x s'].
  - rewrite andb_false_r. reflexivity.
  - destruct ((c =? ch "@") && ucd_isword x) eqn:Hc.
    + reflexivity.
    + apply IH.
Qed.

(** The code finds the mention that the specification describes. *)
Lemma extract_user_mention_first (text : str) :
  extract_user_mention text = first_mention text.
Proof.
  unfold extract_user_mention, re_search.
  rewrite <- (search_from_mention text 0).
  now destruct (search_from mention_pattern 0 text).
Qed.

Lemma first_mention_here (pre handle rest : str) :
  ucd_isword (ch "@") = false ->
  first_mention pre = None ->
  handle <> [] ->
  forallb ucd_isword handle = true ->
  match rest with x :: _ => ucd_isword x = false | [] => True end ->
  first_mention (pre ++ ch "@" :: handle ++ rest) = Some handle.
Proof.
  intros Hat Hpre Hne Hw Hrest.
  induction pre as [|c pre IH].
  - cbn [app first_mention]. rewrite Z.eqb_refl.
    destruct handle as [|h handle]; [congruence|].
    cbn [app]. simpl in Hw. apply andb_true_iff in Hw as [Hh Hw].
    rewrite Hh. cbn [andb]. f_equal.
    change (h :: handle ++ rest) with ((h :: handle) ++ rest).
    apply take_while_all; [simpl; now rewrite Hh, Hw | exact Hrest].
  - cbn [app first_mention] in *.
    destruct pre as [|x pre'].
    + cbn [app]. rewrite Hat, andb_false_r.
      apply IH. reflexivity.
    + cbn [app] in *.
      destruct ((c =? ch "@") && ucd_isword x); [discriminate|].
      now apply IH.
Qed.

Lemma first_mention_none (text : str) :
  (forall pre x rest, text = pre ++ ch "@" :: x :: rest -> ucd_isword x = false) ->
  first_mention text = None.
Proof.
  induction text as [|c text IH]; intros H; [reflexivity|].
  cbn [first_mention].
  assert (IH' : first_mention text = None).
  { apply IH. intros pre x rest ->. apply (H (c :: pre) x rest). reflexivity. }
  destruct text as [|x text'].
  - now rewrite andb_false_r.
  - destruct (Z.eqb_spec c (ch "@")) as [->|_]; [|exact IH'].
    rewrite (H [] x text' eq_refl). exact IH'.
Qed.
End MentionFacts.

(** C6.  For "Новая задача: Связаться с клиентом @ivan до пятницы" the
    mention is "ivan" and, since "до пятницы" has no numeric day, the due
    date is absent.  In general the mention is read on the raw text; it is
    the run of word characters after the first [@] that a word character
    follows, whatever mentions come later; a text without such an [@] has
    no mention. *)
Theorem mention_is_first_token :
  extract_user_mention text_client = Some (u "ivan") /\
  (forall E : Env,
     extract_task_info E text_client = OK (text_client, [], None, u "medium")) /\
  (forall (U : Ucd) (pre handle rest : str),
     ucd_isword (ch "@") = false ->
     @extract_user_mention U pre = None ->
     handle <> [] ->
     forallb ucd_isword handle = true ->
     match rest with x :: _ => ucd_isword x = false | [] => True end ->
     @extract_user_mention U (pre ++ ch "@" :: handle ++ rest) = Some handle) /\
  (forall (U : Ucd) (text : str),
     (forall pre x rest, text = pre ++ ch "@" :: x :: rest -> ucd_isword x = false) ->
     @extract_user_mention U text = None).
Proof.
  split; [|split; [|split]].
  - vm_compute. reflexivity.
  - intros E. rewrite (extract_task_info_returns E text_client None).
    + vm_compute. reflexivity.
    + rewrite extract_due_date_rules.
      assert (F : first_rule (str_lower text_client) date_rules = None)
        by (vm_compute; reflexivity).
      now rewrite F.
  - intros U pre handle rest Hat Hpre Hne Hw Hrest.
    rewrite extract_user_mention_first in *. now apply first_mention_here.
  - intros U text H. rewrite extract_user_mention_first. now apply first_mention_none.
Qed.

Lemma mention_is_first_token_witness :
  extract_user_mention (u "кому: @@ @anna, копия @boris") = Some (u "anna") /\
  extract_user_mention (u "позвонить Анне") = None.
Proof.
  split.
  - destruct mention_is_first_token as (_ & _ & H & _).
    apply (H py_ucd (u "кому: @@ ") (u "anna") (u ", копия @boris")).
    + vm_compute. reflexivity.
    + vm_compute. reflexivity.
    + vm_compute. discriminate.
    + vm_compute. reflexivity.
    + vm_compute. reflexivity.
  - destruct mention_is_first_token as (_ & _ & _ & H).
    apply (H py_ucd). intros pre x rest Heq.
    assert (Hin : In (ch "@") (u "позвонить Анне"))
      by (rewrite Heq; apply in_or_app; right; now left).
    vm_compute in Hin.
    repeat (destruct Hin as [Hin|Hin]; [discriminate Hin|]). destruct Hin.
Defined.

(** ** How the result depends on the clock *)

(** A definition of this development is a function of its arguments, so
    that two calls on one input and one clock reading agree is no theorem
    about the program: it would hold of any definition, and the state of
    the interpreter that could make two runs differ is not part of the
    embedding.  What the lemmas below say is narrower: the due-date step
    reads its environment through the clock only, and the clock decides
    the value of a due date, never its presence. *)

Section Clock.
Context `{U : Ucd}.

(** The rule reads the environment through the clock only. *)
Lemma run_rule_clock (E1 E2 : Env) (rule : date_rule) (m : re_match) :
  datetime_now E1 = datetime_now E2 -> run_rule E1 rule m = run_rule E2 rule m.
Proof. intros H. destruct rule; cbn [run_rule]; try rewrite H; reflexivity. Qed.

(** Whether a date comes out is decided by the rule, not by the clock. *)
Lemma run_rule_absent (E : Env) (rule : date_rule) (m : re_match)
    (due : option datetime) :
  run_rule E rule m = OK due -> (due = None <-> rule = LiteralDate).
Proof.
  destruct rule; cbn [run_rule]; intros H.
  - injection H as <-. tauto.
  - destruct (timedelta_of 1 0) as [delta|]; [|discriminate]. cbn [bind] in H.
    destruct (datetime_add (datetime_now E) delta); [|discriminate].
    injection H as <-. split; discriminate.
  - destruct (timedelta_of 7 0) as [delta|]; [|discriminate]. cbn [bind] in H.
    destruct (datetime_add (datetime_now E) delta); [|discriminate].
    injection H as <-. split; discriminate.
  - destruct (int_group1 m) as [days|]; [|discriminate]. cbn [bind] in H.
    destruct (timedelta_of days 0) as [delta|]; [|discriminate]. cbn [bind] in H.
    destruct (datetime_add (datetime_now E) delta); [|discriminate].
    injection H as <-. split; discriminate.
  - destruct (int_group1 m) as [weeks|]; [|discriminate]. cbn [bind] in H.
    destruct (timedelta_of 0 weeks) as [delta|]; [|discriminate]. cbn [bind] in H.
    destruct (datetime_add (datetime_now E) delta); [|discriminate].
    injection H as <-. split; discriminate.
Qed.

Lemma extract_due_date_clock (E1 E2 : Env) (text : str) :
  datetime_now E1 = datetime_now E2 ->
  extract_due_date E1 text = extract_due_date E2 text.
Proof.
  intros H. rewrite !extract_due_date_rules.
  destruct (first_rule (str_lower text) date_rules) as [[rule m]|]; [|reflexivity].
  now apply run_rule_clock.
Qed.

Lemma extract_due_date_presence (E1 E2 : Env) (text : str)
    (due1 due2 : option datetime) :
  extract_due_date E1 text = OK due1 ->
  extract_due_date E2 text = OK due2 ->
  (due1 = None <-> due2 = None).
Proof.
  rewrite !extract_due_date_rules.
  destruct (first_rule (str_lower text) date_rules) as [[rule m]|].
  - intros H1 H2. apply run_rule_absent in H1, H2. tauto.
  - intros H1 H2. injection H1 as <-. injection H2 as <-. tauto.
Qed.
End Clock.

(** ** C8 and C9: voice messages *)

Lemma except_ordinary {A} (r : result A) (d : A) :
  ordinary r -> exists v, except_Exception r (fun e => OK d) = OK v.
Proof.
  destruct r as [a|e]; simpl; intros H; [eauto|]. rewrite H. eauto.
Qed.

Lemma except_not_some {A} (r : result (option A)) (t : A) :
  except_Exception r (fun e => OK None) = OK (Some t) -> r = OK (Some t).
Proof.
  destruct r as [a|e]; simpl; [auto|]. destruct (is_Exception e); discriminate.
Qed.

(** The conversion answers [True] only for a process that ends in time
    with the return code 0. *)
Lemma convert_ogg_to_wav_true (sc : Scenario) (ogg wav : path) :
  convert_ogg_to_wav sc ogg wav = OK true ->
  exists elapsed, sc_run sc = Exits elapsed 0 /\ elapsed <= FFMPEG_TIMEOUT_MS.
Proof.
  unfold convert_ogg_to_wav, wait_for.
  destruct (sc_spawn sc) as [[]|e]; cbn [bind except_Exception].
  - destruct (sc_run sc) as [elapsed rc|e].
    + destruct (Z.leb_spec elapsed FFMPEG_TIMEOUT_MS) as [Hle|Hgt].
      * cbn [except_Exception]. intros H. injection H as Hrc.
        apply Z.eqb_eq in Hrc as ->. eauto.
      * destruct (sc_kill sc) as [[]|e]; cbn [bind except_Exception];
          [discriminate|]. destruct (is_Exception e); discriminate.
    + destruct e; cbn [except_Exception is_Exception]; try discriminate.
      destruct (sc_kill sc) as [[]|e]; cbn [bind except_Exception];
        [discriminate|]. destruct (is_Exception e); discriminate.
  - destruct (is_Exception e); discriminate.
Qed.

(** A cancellation apart, the conversion returns a boolean. *)
Lemma convert_ogg_to_wav_ordinary (sc : Scenario) (ogg wav : path) :
  not_cancelled sc -> exists b, convert_ogg_to_wav sc ogg wav = OK b.
Proof.
  intros (_ & _ & _ & Hspawn & Hwait & Hkill & _).
  unfold convert_ogg_to_wav.
  destruct (sc_spawn sc) as [[]|e]; cbn [bind except_Exception].
  - destruct (wait_for FFMPEG_TIMEOUT_MS (sc_run sc)) as [rc|e].
    + simpl. eauto.
    + simpl in Hwait.
      destruct e; try discriminate Hwait; simpl; eauto.
      destruct (sc_kill sc) as [[]|e]; simpl; eauto.
      simpl in Hkill. rewrite Hkill. eauto.
  - simpl in Hspawn. rewrite Hspawn. eauto.
Qed.

Lemma convert_and_recognize_ordinary (sc : Scenario) (ogg wav : path) :
  not_cancelled sc -> ordinary (convert_and_recognize sc ogg wav).
Proof.
  intros Hnc. destruct (convert_ogg_to_wav_ordinary sc ogg wav Hnc) as [b Hb].
  destruct Hnc as (_ & _ & _ & _ & _ & _ & Haudio & Hrec & _).
  unfold convert_and_recognize. rewrite Hb. cbn [bind].
  destruct b; simpl; [|exact I].
  destruct (sc_audio sc) as [[]|e]; simpl; [|exact Haudio].
  destruct (sc_recognize sc) as [text|e]; simpl; [exact I|].
  simpl in Hrec. destruct e; simpl; auto.
Qed.

(** A text comes only from a recognition that succeeds after a
    conversion that succeeds. *)
Lemma convert_and_recognize_text (sc : Scenario) (ogg wav : path) (text : str) :
  convert_and_recognize sc ogg wav = OK (Some text) ->
  sc_recognize sc = OK text /\
  exists elapsed, sc_run sc = Exits elapsed 0 /\ elapsed <= FFMPEG_TIMEOUT_MS.
Proof.
  unfold convert_and_recognize.
  destruct (convert_ogg_to_wav sc ogg wav) as [[|]|e] eqn:Hc; cbn [bind negb];
    try discriminate.
  destruct (sc_audio sc) as [[]|e]; cbn [bind]; [|discriminate].
  destruct (sc_recognize sc) as [t|e].
  - intros H. injection H as ->. split; [reflexivity|].
    now apply (convert_ogg_to_wav_true sc ogg wav).
  - destruct e; discriminate.
Qed.

Lemma os_unlink_ordinary (sc : Scenario) (p : path) (fs : filesystem) :
  (forall q, ordinary (sc_unlink sc q)) -> ordinary (fst (os_unlink sc p fs)).
Proof.
  intros H. unfold os_unlink. destruct (decide (p ∈ fs)) as [Hin|Hout];
    [|reflexivity].
  specialize (H p). destruct (sc_unlink sc p) as [[]|e]; simpl; auto.
Qed.

(** The [finally] block swallows what its unlinks raise. *)
Lemma cleanup_ordinary (sc : Scenario) (ogg wav : path) (fs : filesystem) :
  (forall q, ordinary (sc_unlink sc q)) -> fst (cleanup sc ogg wav fs) = OK tt.
Proof.
  intros H. unfold cleanup.
  pose proof (os_unlink_ordinary sc ogg fs H) as H1.
  destruct (os_unlink sc ogg fs) as [[[]|e1] fs1]; simpl in *.
  - pose proof (os_unlink_ordinary sc wav fs1 H) as H2.
    destruct (os_unlink sc wav fs1) as [[[]|e2] fs2]; simpl in *; [reflexivity|].
    now rewrite H2.
  - now rewrite H1.
Qed.

Lemma voice_body_ordinary (sc : Scenario) (fs : filesystem) :
  not_cancelled sc -> ordinary (fst (voice_body sc fs)).
Proof.
  intros Hnc.
  pose proof (fun ogg wav => convert_and_recognize_ordinary sc ogg wav Hnc) as Hrec.
  destruct Hnc as (Hogg & Hwav & Hdl & _ & _ & _ & _ & _ & Hunlink).
  unfold voice_body.
  destruct (sc_tmp_ogg sc) as [ogg|e]; [|exact Hogg].
  destruct (sc_tmp_wav sc) as [wav|e]; [|exact Hwav].
  destruct (sc_download sc) as [[]|e]; [|exact Hdl].
  pose proof (cleanup_ordinary sc ogg wav (fs ∪ {[ogg]} ∪ {[wav]})) as Hc.
  destruct (cleanup sc ogg wav (fs ∪ {[ogg]} ∪ {[wav]})) as [c fs3].
  simpl in *. rewrite (Hc Hunlink). simpl.
  apply Hrec.
Qed.

Lemma voice_text_source (sc : Scenario) (fs : filesystem) (text : str) :
  fst (convert_voice_to_text sc fs) = OK (Some text) ->
  sc_recognize sc = OK text /\
  exists elapsed, sc_run sc = Exits elapsed 0 /\ elapsed <= FFMPEG_TIMEOUT_MS.
Proof.
  unfold convert_voice_to_text.
  destruct (voice_body sc fs) as [r fs'] eqn:Hb. simpl.
  intros H. apply except_not_some in H. subst r.
  unfold voice_body in Hb.
  destruct (sc_tmp_ogg sc) as [ogg|e]; [|discriminate].
  destruct (sc_tmp_wav sc) as [wav|e]; [|discriminate].
  destruct (sc_download sc) as [[]|e]; [|discriminate].
  destruct (cleanup sc ogg wav (fs ∪ {[ogg]} ∪ {[wav]})) as [c fs3].
  injection Hb as Hb _. destruct c as [[]|e]; simpl in Hb; [|discriminate].
  now apply (convert_and_recognize_text sc ogg wav).
Qed.

(** C8.  [convert_voice_to_text] fails soft.  Unless the task is
    cancelled, it returns, whatever the collaborators do; when the
    conversion passes the timeout of 10 seconds or ends with a return code
    other than 0, or when the recogniser raises (audio not understood,
    service error, or anything else), it returns [None]. *)
Theorem voice_fails_soft (sc : Scenario) (fs : filesystem) :
  not_cancelled sc ->
  (exists v, fst (convert_voice_to_text sc fs) = OK v) /\
  ((exists elapsed rc, sc_run sc = Exits elapsed rc /\
                       (FFMPEG_TIMEOUT_MS < elapsed \/ rc <> 0)) ->
   fst (convert_voice_to_text sc fs) = OK None) /\
  ((exists e, sc_recognize sc = Raise e) ->
   fst (convert_voice_to_text sc fs) = OK None).
Proof.
  intros Hnc.
  assert (Hret : exists v, fst (convert_voice_to_text sc fs) = OK v).
  { pose proof (voice_body_ordinary sc fs Hnc) as Hb.
    unfold convert_voice_to_text.
    destruct (voice_body sc fs) as [r fs']. simpl in *.
    now apply except_ordinary. }
  split; [exact Hret|].
  destruct Hret as [[text|] Hv]; [|split; intros _; exact Hv].
  destruct (voice_text_source sc fs text Hv) as (Hrec & elapsed & Hrun & Hle).
  split.
  - intros (elapsed' & rc & Hrun' & Hfail). rewrite Hrun in Hrun'.
    injection Hrun' as <- <-. lia.
  - intros (e & He). congruence.
Qed.

Lemma voice_fails_soft_witness :
  fst (convert_voice_to_text scenario_timeout ∅) = OK None.
Proof.
  destruct (voice_fails_soft scenario_timeout ∅) as (_ & H & _).
  - repeat split.
  - apply H. exists 12000, 0. split; [reflexivity|]. left. reflexivity.
Defined.

(** When the download succeeds and the files can be unlinked, both
    temporary files are gone after the call. *)
Lemma cleanup_after_download (sc : Scenario) (fs : filesystem) (ogg wav : path) :
  sc_tmp_ogg sc = OK ogg -> sc_tmp_wav sc = OK wav -> sc_download sc = OK tt ->
  sc_unlink sc ogg = OK tt -> sc_unlink sc wav = OK tt ->
  (ogg ∉ snd (convert_voice_to_text sc fs)) /\
  (wav ∉ snd (convert_voice_to_text sc fs)).
Proof.
  intros Hogg Hwav Hdl Huo Huw.
  unfold convert_voice_to_text, voice_body. rewrite Hogg, Hwav, Hdl.
  unfold cleanup, os_unlink.
  destruct (decide (ogg ∈ fs ∪ {[ogg]} ∪ {[wav]})) as [_|Hn].
  - rewrite Huo.
    destruct (decide (wav ∈ (fs ∪ {[ogg]} ∪ {[wav]}) ∖ {[ogg]})) as [_|Hn].
    + rewrite Huw. simpl. split; intros Hin.
      * apply elem_of_difference in Hin as [Hin _].
        apply elem_of_difference in Hin as [_ Hin].
        apply Hin. now apply elem_of_singleton.
      * apply elem_of_difference in Hin as [_ Hin].
        apply Hin. now apply elem_of_singleton.
    + simpl. split; intros Hin.
      * apply elem_of_difference in Hin as [_ Hin].
        apply Hin. now apply elem_of_singleton.
      * now apply Hn.
  - exfalso. apply Hn. apply elem_of_union. left.
    apply elem_of_union. right. now apply elem_of_singleton.
Qed.

(** A download that raises leaves both files on disk. *)
Lemma download_failure_keeps_files (sc : Scenario) (fs : filesystem)
    (ogg wav : path) (e : exn) :
  sc_tmp_ogg sc = OK ogg -> sc_tmp_wav sc = OK wav -> sc_download sc = Raise e ->
  snd (convert_voice_to_text sc fs) = fs ∪ {[ogg]} ∪ {[wav]}.
Proof.
  intros Hogg Hwav Hdl.
  unfold convert_voice_to_text, voice_body. now rewrite Hogg, Hwav, Hdl.
Qed.

(** C9 does not hold of the code.  The download stands between the
    creation of the two files and the [try] whose [finally] unlinks them:
    when it raises, the call returns [None] and both files stay on disk. *)
Theorem download_failure_leaves_files :
  fst (convert_voice_to_text scenario_download_fails ∅) = OK None /\
  snd (convert_voice_to_text scenario_download_fails ∅) =
    {[ "/tmp/tmpa1.ogg"%string; "/tmp/tmpb2.wav"%string ]} /\
  snd (convert_voice_to_text scenario_ok ∅) = ∅.
Proof. repeat split; vm_compute; reflexivity. Qed.

(** ** C10: /delete *)

Lemma opt_Z_eqb_eq (a b : option Z) : opt_Z_eqb a b = true <-> a = b.
Proof.
  destruct a as [x|], b as [y|]; simpl; try (split; congruence).
  rewrite Z.eqb_eq. split; congruence.
Qed.

(** C10.  Deletion is scoped to the creator.  Every /delete request gets
    an answer; when it names an existing task, the task is gone from the
    store afterwards exactly when the requester is its creator, and then
    nothing else changes and the reply confirms the deletion; whenever
    the request does not name an existing task of the requester (not the
    creator, task or user not found, malformed command), the store is
    unchanged and the reply is an error reply. *)
Theorem delete_scoped_to_creator `{U : Ucd} (eng : Engine) (db : Db)
    (message : Message) :
  exists replies db',
    delete_task eng db message = OK (replies, db') /\
    (forall id task, names_task eng db message id task ->
       (db_tasks db' !! id = None <-> is_creator db message task) /\
       (is_creator db message task ->
        db' = mk_db (db_users db) (delete id (db_tasks db)) /\
        replies = [reply_deleted id])) /\
    ((forall id task, names_task eng db message id task ->
                      ~ is_creator db message task) ->
     db' = db /\ exists r, replies = [r] /\ is_error_reply r = true).
Proof.
  (* every refusal: one error reply, the store as it was *)
  assert (Hrefuse : forall r, is_error_reply r = true ->
    (forall id task, names_task eng db message id task ->
                     ~ is_creator db message task) ->
    (forall id task, names_task eng db message id task ->
       (db_tasks db !! id = None <-> is_creator db message task) /\
       (is_creator db message task ->
        db = mk_db (db_users db) (delete id (db_tasks db)) /\
        [r] = [reply_deleted id])) /\
    ((forall id task, names_task eng db message id task ->
                      ~ is_creator db message task) ->
     db = db /\ exists r', [r] = [r'] /\ is_error_reply r' = true)).
  { intros r Hr Hno. split; [|eauto].
    intros id task Hn. pose proof (Hno id task Hn) as Hnc.
    destruct Hn as (cmd & arg & _ & _ & Hlook). split; [|tauto].
    rewrite Hlook. split; [discriminate | tauto]. }
  unfold delete_task.
  destruct (str_split_maxsplit1 (msg_text message)) as [|cmd [|arg [|x args]]]
    eqn:Hargs;
    try (exists [reply_bad_format], db; split; [reflexivity|];
         apply Hrefuse; [vm_compute; reflexivity|];
         intros id task (cmd' & arg' & Heq & _); rewrite Hargs in Heq;
         discriminate Heq).
  cbn [length Nat.eqb negb nth].
  assert (Hnames : forall id task, names_task eng db message id task ->
    id_of_text eng arg = Row id /\ db_tasks db !! id = Some task).
  { intros id task (cmd' & arg' & Heq & Hid & Hlook). rewrite Hargs in Heq.
    injection Heq as <- <-. auto. }
  destruct (msg_from_user message) as [from_user|] eqn:Hfrom; cbn [bind].
  2:{ exists [reply_error], db. split; [reflexivity|].
      apply Hrefuse; [vm_compute; reflexivity|].
      intros id task _ (f & usr & Hf & _). congruence. }
  destruct (find (fun usr => user_telegram_id usr =? from_user) (db_users db))
    as [current_user|] eqn:Hfind.
  2:{ exists [reply_no_user], db. split; [reflexivity|].
      apply Hrefuse; [vm_compute; reflexivity|].
      intros id task _ (f & usr & Hf & Hu & _).
      rewrite Hfrom in Hf. injection Hf as <-. congruence. }
  destruct (id_of_text eng arg) as [id| |] eqn:Hid.
  2:{ exists [reply_no_task], db. split; [reflexivity|].
      apply Hrefuse; [vm_compute; reflexivity|].
      intros id task Hn. destruct (Hnames id task Hn). discriminate. }
  2:{ exists [reply_error], db. split; [reflexivity|].
      apply Hrefuse; [vm_compute; reflexivity|].
      intros id task Hn. destruct (Hnames id task Hn). discriminate. }
  destruct (db_tasks db !! id) as [task|] eqn:Htask.
  2:{ exists [reply_no_task], db. split; [reflexivity|].
      apply Hrefuse; [vm_compute; reflexivity|].
      intros id' task' Hn. destruct (Hnames id' task' Hn) as [Hr Hl].
      injection Hr as <-. congruence. }
  assert (Hcreator : is_creator db message task <->
    opt_Z_eqb (task_creator_id task) (Some (user_id current_user)) = true).
  { rewrite opt_Z_eqb_eq. split.
    - intros (f & usr & Hf & Hu & Hc). rewrite Hfrom in Hf. injection Hf as <-.
      rewrite Hfind in Hu. injection Hu as <-. exact Hc.
    - intros Hc. exists from_user, current_user. auto. }
  assert (Hsame : forall id' task', names_task eng db message id' task' ->
    id' = id /\ task' = task).
  { intros id' task' Hn. destruct (Hnames id' task' Hn) as [Hr Hl].
    injection Hr as <-. split; congruence. }
  destruct (opt_Z_eqb (task_creator_id task) (Some (user_id current_user)))
    eqn:Hown; cbn [negb].
  - exists [reply_deleted id], (mk_db (db_users db) (delete id (db_tasks db))).
    split; [reflexivity|]. split.
    + intros id' task' Hn. destruct (Hsame id' task' Hn) as [-> ->].
      split; [|auto]. cbn [db_tasks]. rewrite lookup_delete_eq.
      split; [intros _; now apply Hcreator | reflexivity].
    + intros Hno. exfalso. apply (Hno id task).
      * exists cmd, arg. auto.
      * now apply Hcreator.
  - exists [reply_not_creator], db. split; [reflexivity|].
    apply Hrefuse; [vm_compute; reflexivity|].
    intros id' task' Hn. destruct (Hsame id' task' Hn) as [-> ->].
    rewrite Hcreator. discriminate.
Qed.

Lemma delete_scoped_to_creator_witness :
  (exists replies,
     delete_task engine0 db0 (mk_message (u "/delete 7") (Some 100)) =
     OK (replies, mk_db (db_users db0) (delete 7 (db_tasks db0)))) /\
  (exists r,
     delete_task engine0 db0 (mk_message (u "/delete 7") (Some 200)) =
     OK ([r], db0) /\ is_error_reply r = true).
Proof.
  split.
  - destruct (delete_scoped_to_creator engine0 db0
                (mk_message (u "/delete 7") (Some 100)))
      as (replies & db' & Hrun & Hnamed & _).
    destruct (Hnamed 7 (mk_task (u "Отчет") None None (u "pending") (u "medium")
                          (Some 2) (Some 1) false)) as (_ & Hdel).
    + exists (u "/delete"), (u "7"). repeat split; vm_compute; reflexivity.
    + destruct Hdel as (-> & _).
      * exists 100, (mk_user 1 100 (Some (u "anna"))).
        repeat split; vm_compute; reflexivity.
      * exists replies. exact Hrun.
  - destruct (delete_scoped_to_creator engine0 db0
                (mk_message (u "/delete 7") (Some 200)))
      as (replies & db' & Hrun & _ & Hrefused).
    destruct Hrefused as (-> & r & -> & Hr).
    + intros id task (cmd & arg & Hargs & Hid & Hlook) (f & usr & Hf & Hu & Hc).
      vm_compute in Hargs. injection Hargs as <- <-.
      vm_compute in Hid. injection Hid as <-.
      vm_compute in Hf. injection Hf as <-.
      vm_compute in Hu. injection Hu as <-.
      vm_compute in Hlook. injection Hlook as <-.
      vm_compute in Hc. discriminate Hc.
    + exists r. split; [exact Hrun | exact Hr].
Defined.

(** * Further properties of nlp_utils.py *)

(** ** Title and description *)

Lemma str_join_cons (sep p : str) (parts : list str) :
  parts <> [] -> str_join sep (p :: parts) = p ++ sep ++ str_join sep parts.
Proof. destruct parts; [congruence | reflexivity]. Qed.

Lemma str_join_split (sep : codepoint) (s : str) :
  str_join [sep] (str_split sep s) = s.
Proof.
  induction s as [|c s IH]; [reflexivity|].
  pose proof (str_split_nonempty sep s) as Hne.
  cbn [str_split]. destruct (c =? sep) eqn:Hc.
  - apply Z.eqb_eq in Hc as ->.
    rewrite (str_join_cons _ _ _ Hne), IH. reflexivity.
  - destruct (str_split sep s) as [|seg segs]; [congruence|].
    destruct segs as [|seg' segs].
    + simpl in *. now rewrite IH.
    + rewrite str_join_cons in IH |- * by discriminate.
      cbn [app]. now rewrite <- IH.
Qed.

Lemma take_while_not_sep (sep : codepoint) (s : str) :
  ~ In sep (take_while (fun c => negb (c =? sep)) s).
Proof.
  induction s as [|c s IH]; simpl; [tauto|].
  destruct (Z.eqb_spec c sep); simpl; [tauto|]. intros [H|H]; auto.
Qed.

Section Shape.
Context `{U : Ucd}.

Lemma str_strip_incl (s : str) (c : codepoint) : In c (str_strip s) -> In c s.
Proof.
  unfold str_strip, str_rstrip, str_lstrip. intros H.
  apply in_rev in H. apply drop_while_incl in H. apply in_rev in H.
  now apply drop_while_incl in H.
Qed.

Lemma drop_while_head (p : codepoint -> bool) (s : str) (c : codepoint) (rest : str) :
  drop_while p s = c :: rest -> p c = false.
Proof.
  induction s as [|x s IH]; simpl; [discriminate|].
  destruct (p x) eqn:Hx; [exact IH|]. intros H. injection H as <- _. exact Hx.
Qed.

Lemma drop_while_stable (p : codepoint -> bool) (s : str) :
  drop_while p (drop_while p s) = drop_while p s.
Proof.
  destruct (drop_while p s) as [|c rest] eqn:H; [reflexivity|].
  simpl. now rewrite (drop_while_head p s c rest H).
Qed.

(** What [strip] returns begins and ends with a character that is not
    white space. *)
Lemma str_strip_ends (s : str) :
  (forall c rest, str_strip s = c :: rest -> ucd_isspace c = false) /\
  (forall pre c, str_strip s = pre ++ [c] -> ucd_isspace c = false).
Proof.
  unfold str_strip, str_rstrip, str_lstrip.
  set (t := drop_while ucd_isspace s). split.
  - intros c rest H.
    destruct (drop_while ucd_isspace (rev t)) as [|x r] eqn:Hr; [discriminate|].
    (* the first character of the result is the first of [t] *)
    assert (Hin : exists q, rev t = q ++ x :: r /\ forall y, In y q -> ucd_isspace y = true).
    { clear H. revert Hr. generalize (rev t). intros l.
      induction l as [|y l IH]; simpl; [discriminate|].
      destruct (ucd_isspace y) eqn:Hy.
      - intros Hd. destruct (IH Hd) as (q & -> & Hq).
        exists (y :: q). split; [reflexivity|]. intros z [<-|Hz]; auto.
      - intros Hd. injection Hd as -> ->. exists []. split; [reflexivity|].
        intros z []. }
    destruct Hin as (q & Hq & _).
    assert (Ht : t = rev (x :: r) ++ rev q).
    { rewrite <- (rev_involutive t), Hq, rev_app_distr. reflexivity. }
    destruct (rev (x :: r)) as [|c' rest'] eqn:Hrev.
    + apply (f_equal (@length _)) in Hrev. rewrite length_rev in Hrev. discriminate.
    + injection H as <- _. subst t.
      apply (drop_while_head ucd_isspace s c' (rest' ++ rev q)). exact Ht.
  - intros pre c H.
    apply (f_equal (@rev _)) in H. rewrite rev_involutive, rev_app_distr in H.
    simpl in H. now apply drop_while_head in H.
Qed.

(** X1.  The title never holds a period and never begins or ends with
    white space. *)
Theorem title_shape (text : str) :
  ~ In (ch ".") (extract_title text) /\
  (forall c rest, extract_title text = c :: rest -> ucd_isspace c = false) /\
  (forall pre c, extract_title text = pre ++ [c] -> ucd_isspace c = false).
Proof.
  split.
  - unfold extract_title. rewrite str_split_head. intros H.
    apply str_strip_incl in H. now apply take_while_not_sep in H.
  - apply str_strip_ends.
Qed.

(** X2.  The description is everything after the first period, trimmed:
    later periods stay in it. *)
Theorem description_is_rest (text pre rest : str) :
  text = pre ++ ch "." :: rest -> ~ In (ch ".") pre ->
  extract_title text = str_strip pre /\
  extract_description text = str_strip rest.
Proof.
  intros -> Hpre. unfold extract_title, extract_description.
  rewrite (str_split_first _ _ _ Hpre). cbn [nth skipn length].
  split; [reflexivity|].
  destruct (str_split (ch ".") rest) as [|seg segs] eqn:Hs;
    [now destruct (str_split_nonempty (ch ".") rest)|].
  cbn [length Nat.ltb Nat.leb]. rewrite <- Hs, skipn_O.
  change (u ".") with [ch "."]. now rewrite str_join_split.
Qed.
End Shape.

Lemma description_is_rest_witness :
  extract_title (u "Отчет. Версия 1.2. Срочно") = u "Отчет" /\
  extract_description (u "Отчет. Версия 1.2. Срочно") = u "Версия 1.2. Срочно".
Proof.
  destruct (description_is_rest (u "Отчет. Версия 1.2. Срочно") (u "Отчет")
              (u " Версия 1.2. Срочно")) as [-> ->].
  - vm_compute. reflexivity.
  - vm_compute. intros H. repeat (destruct H as [H|H]; [discriminate H|]). exact H.
  - split; vm_compute; reflexivity.
Defined.

(** ** Due dates that are returned *)

Lemma timedelta_of_days (days weeks : Z) (delta : timedelta) :
  timedelta_of days weeks = OK delta -> td_days delta = days + 7 * weeks.
Proof.
  unfold timedelta_of. destruct (Z.abs (days + 7 * weeks) <=? MAX_DELTA_DAYS);
    [|discriminate]. intros H. now injection H as <-.
Qed.

Lemma datetime_add_spec (dt : datetime) (delta : timedelta) (d : datetime) :
  datetime_add dt delta = OK d ->
  d = plus_days dt (td_days delta) /\ 1 <= dt_ordinal d <= MAXORDINAL.
Proof.
  unfold datetime_add.
  destruct (Z.leb_spec 1 (dt_ordinal dt + td_days delta)) as [H1|]; [|discriminate].
  destruct (Z.leb_spec (dt_ordinal dt + td_days delta) MAXORDINAL) as [H2|];
    [|discriminate].
  simpl. intros H. injection H as <-. auto.
Qed.

Lemma delta_then_add (E : Env) (days weeks : Z) (due : option datetime) :
  (do delta <- timedelta_of days weeks;
   do d <- datetime_add (datetime_now E) delta;
   OK (Some d)) = OK due ->
  exists d, due = Some d /\ d = plus_days (datetime_now E) (days + 7 * weeks) /\
            1 <= dt_ordinal d <= MAXORDINAL.
Proof.
  destruct (timedelta_of days weeks) as [delta|] eqn:Ht; [|discriminate].
  cbn [bind]. destruct (datetime_add (datetime_now E) delta) as [d|] eqn:Ha;
    [|discriminate].
  cbn [bind]. intros H. injection H as <-.
  apply timedelta_of_days in Ht. apply datetime_add_spec in Ha as [-> Hr].
  exists (plus_days (datetime_now E) (td_days delta)). rewrite <- Ht. auto.
Qed.

Section DueFacts.
Context `{U : Ucd}.

Lemma int_digits_nonneg (ds : str) :
  forall acc z, 0 <= acc -> int_digits acc ds = OK z -> 0 <= z.
Proof.
  induction ds as [|c ds IH]; intros acc z Hacc; simpl.
  - intros H. injection H as <-. exact Hacc.
  - destruct (ucd_decimal c) as [d|]; [|discriminate]. apply IH. lia.
Qed.

Lemma int_group1_nonneg (m : re_match) (z : Z) : int_group1 m = OK z -> 0 <= z.
Proof.
  unfold int_group1, py_int. destruct (m_group1 m) as [[|c ds]|]; try discriminate.
  destruct (int_max_str_digits <? length (c :: ds))%nat; [discriminate|].
  now apply int_digits_nonneg.
Qed.

(** X3.  A due date, when one is returned, is the clock reading moved forward
    by a whole number of days: never in the past, the time of day kept,
    and a date that [datetime] can hold. *)
Theorem due_date_not_past (E : Env) (text : str) (due : datetime) :
  extract_due_date E text = OK (Some due) ->
  exists days, 0 <= days /\ due = plus_days (datetime_now E) days /\
               dt_ordinal (datetime_now E) <= dt_ordinal due <= MAXORDINAL /\
               dt_usec due = dt_usec (datetime_now E).
Proof.
  rewrite extract_due_date_rules.
  destruct (first_rule (str_lower text) date_rules) as [[rule m]|]; [|discriminate].
  assert (Hfin : forall days weeks, 0 <= days + 7 * weeks ->
    (do delta <- timedelta_of days weeks;
     do d <- datetime_add (datetime_now E) delta;
     OK (Some d)) = OK (Some due) ->
    exists days, 0 <= days /\ due = plus_days (datetime_now E) days /\
                 dt_ordinal (datetime_now E) <= dt_ordinal due <= MAXORDINAL /\
                 dt_usec due = dt_usec (datetime_now E)).
  { intros days weeks Hpos H.
    apply delta_then_add in H as (d & Hd & -> & Hr). injection Hd as ->.
    exists (days + 7 * weeks). simpl in *. repeat split; auto; lia. }
  destruct rule; cbn [run_rule].
  - discriminate.
  - apply Hfin. lia.
  - apply Hfin. lia.
  - destruct (int_group1 m) as [days|] eqn:Hn; [|discriminate]. cbn [bind].
    apply Hfin. apply int_group1_nonneg in Hn. lia.
  - destruct (int_group1 m) as [weeks|] eqn:Hn; [|discriminate]. cbn [bind].
    apply Hfin. apply int_group1_nonneg in Hn. lia.
Qed.

Lemma sem_RStr (w0 : str) :
  forall w g g', sem (RStr w0) w g g' -> w = w0 /\ g' = g.
Proof.
  induction w0 as [|c w0 IH]; intros w g g' H.
  - exact H.
  - destruct w0 as [|c' w0]; [exact H|].
    destruct H as (w1 & w2 & g1 & -> & (-> & ->) & H2).
    apply IH in H2 as [-> ->]. auto.
Qed.

(** Only one of the two "через N ..." patterns can count. *)
Lemma counted_rule_regex (lowered : str) (rule : date_rule) (m : re_match) :
  first_rule lowered date_rules = Some (rule, m) ->
  rule = InDays \/ rule = InWeeks ->
  re_search re_in_days lowered = Some m \/ re_search re_in_weeks lowered = Some m.
Proof.
  intros H Hrule. apply first_rule_In in H as (r & Hin & Hs).
  rewrite date_rules_unfold in Hin. simpl in Hin.
  destruct Hin as [Hp|[Hp|[Hp|[Hp|[Hp|[Hp|[]]]]]]];
    injection Hp as <- <-; destruct Hrule; try discriminate; auto.
Qed.

Lemma counted_needs_word (lowered : str) (m : re_match) :
  re_search re_in_days lowered = Some m \/ re_search re_in_weeks lowered = Some m ->
  str_in (u "через ") lowered = true.
Proof.
  intros [H|H];
    apply search_from_sound in H as (pre & w & post & -> & Hsem & _);
    destruct Hsem as (w1 & w2 & g1 & -> & H1 & _);
    apply sem_RStr in H1 as [-> _];
    apply str_in_spec; exists pre, (w2 ++ post); now rewrite <- app_assoc.
Qed.

(** X4.  The due-date step (lines 26-50) can only raise on a "через N ..."
    phrase: for a text whose lower-cased form has no "через ", and a clock
    at least a week before the end of the year 9999, [extract_due_date]
    returns, and what it returns is no date, the clock plus one day, or
    the clock plus seven days. *)
Theorem due_date_returns_without_count (E : Env) (text : str) :
  str_in (u "через ") (str_lower text) = false ->
  1 <= dt_ordinal (datetime_now E) -> dt_ordinal (datetime_now E) + 7 <= MAXORDINAL ->
  extract_due_date E text = OK None \/
  extract_due_date E text = OK (Some (plus_days (datetime_now E) 1)) \/
  extract_due_date E text = OK (Some (plus_days (datetime_now E) 7)).
Proof.
  intros Hno H1 H7.
  rewrite extract_due_date_rules.
  destruct (first_rule (str_lower text) date_rules) as [[rule m]|] eqn:F; [|auto].
  assert (Hadd : forall days, 1 <= days <= 7 ->
    (do delta <- timedelta_of days 0;
     do d <- datetime_add (datetime_now E) delta;
     OK (Some d)) = OK (Some (plus_days (datetime_now E) days))).
  { intros days Hd. unfold timedelta_of, datetime_add, plus_days, MAX_DELTA_DAYS.
    replace (days + 7 * 0) with days by lia.
    destruct (Z.leb_spec (Z.abs days) 999999999); [|lia]. simpl.
    destruct (Z.leb_spec 1 (dt_ordinal (datetime_now E) + days)); [|lia].
    destruct (Z.leb_spec (dt_ordinal (datetime_now E) + days) MAXORDINAL); [|lia].
    reflexivity. }
  destruct rule; cbn [run_rule].
  - left. reflexivity.
  - right. left. apply Hadd. lia.
  - right. right. apply Hadd. lia.
  - exfalso.
    pose proof (counted_needs_word _ m (counted_rule_regex _ _ _ F ltac:(auto))).
    congruence.
  - exfalso.
    pose proof (counted_needs_word _ m (counted_rule_regex _ _ _ F ltac:(auto))).
    congruence.
Qed.
End DueFacts.

Lemma due_date_not_past_witness :
  exists days, 0 <= days /\
    mk_datetime 739021 43200000000 = plus_days (datetime_now env0) days.
Proof.
  destruct (due_date_not_past env0 (u "Сдать через 3 недели")
              (mk_datetime 739021 43200000000)) as (days & H0 & H & _).
  - vm_compute. reflexivity.
  - exists days. auto.
Defined.

Lemma due_date_returns_without_count_witness :
  extract_due_date env0 (u "Позвонить завтра 1000000000 раз") = OK None \/
  extract_due_date env0 (u "Позвонить завтра 1000000000 раз") =
    OK (Some (plus_days (datetime_now env0) 1)) \/
  extract_due_date env0 (u "Позвонить завтра 1000000000 раз") =
    OK (Some (plus_days (datetime_now env0) 7)).
Proof.
  apply (due_date_returns_without_count env0 (u "Позвонить завтра 1000000000 раз")).
  - vm_compute. reflexivity.
  - vm_compute. discriminate.
  - vm_compute. discriminate.
Defined.

(** ** The mention that is returned *)

Lemma take_while_forallb (p : codepoint -> bool) (s : str) :
  forallb p (take_while p s) = true.
Proof.
  induction s as [|c s IH]; simpl; [reflexivity|].
  destruct (p c) eqn:Hc; simpl; [now rewrite Hc|reflexivity].
Qed.

Section MentionShape.
Context `{U : Ucd}.

(** X5.  A mention that is returned stands in the text right after an [@]; it
    is not empty, is made of word characters only, and is followed by the
    end of the text or by a character that is not a word character. *)
Theorem mention_shape (text handle : str) :
  extract_user_mention text = Some handle ->
  handle <> [] /\ forallb ucd_isword handle = true /\
  exists pre rest, text = pre ++ ch "@" :: handle ++ rest /\
    match rest with x :: _ => ucd_isword x = false | [] => True end.
Proof.
  rewrite extract_user_mention_first.
  induction text as [|c text IH]; [discriminate|].
  cbn [first_mention].
  destruct ((c =? ch "@") && match text with x :: _ => ucd_isword x | [] => false end)
    eqn:Hc.
  - intros H. injection H as <-.
    apply andb_true_iff in Hc as [Hat Hx]. apply Z.eqb_eq in Hat as ->.
    destruct text as [|x text]; [discriminate|].
    split; [simpl; now rewrite Hx|]. split; [apply take_while_forallb|].
    exists [], (drop_while ucd_isword (x :: text)).
    split; [cbn [app]; now rewrite take_drop_while|].
    destruct (drop_while ucd_isword (x :: text)) as [|y r] eqn:Hd; [exact I|].
    now apply drop_while_head in Hd.
  - intros H. destruct (IH H) as (Hne & Hw & pre & rest & -> & Hr).
    split; [exact Hne|]. split; [exact Hw|]. exists (c :: pre), rest. auto.
Qed.
End MentionShape.

Lemma mention_shape_witness :
  u "oleg" <> [] /\ forallb py_isword (u "oleg") = true.
Proof.
  destruct (mention_shape (u "Отправить счет @oleg, копия @inna") (u "oleg"))
    as (H1 & H2 & _).
  - vm_compute. reflexivity.
  - split; [exact H1 | exact H2].
Defined.

(** * Further properties of the voice pipeline *)

Lemma except_raise_not_Exception {A} (r : result A) (d : A) (e : exn) :
  except_Exception r (fun _ => OK d) = Raise e -> is_Exception e = false.
Proof.
  destruct r as [a|e']; simpl; [discriminate|].
  destruct (is_Exception e') eqn:He; [discriminate|]. intros H. now injection H as <-.
Qed.

(** X6.  The conversion answers [True] exactly when the process could be
    started and ended within the 10 seconds with the return code 0; it
    never raises anything that derives from [Exception]. *)
Theorem convert_ogg_to_wav_true_iff (sc : Scenario) (ogg wav : path) :
  (convert_ogg_to_wav sc ogg wav = OK true <->
   sc_spawn sc = OK tt /\
   exists elapsed, sc_run sc = Exits elapsed 0 /\ elapsed <= FFMPEG_TIMEOUT_MS) /\
  (forall e, convert_ogg_to_wav sc ogg wav = Raise e -> is_Exception e = false).
Proof.
  split; [split|].
  - intros H. split; [|now apply (convert_ogg_to_wav_true sc ogg wav)].
    unfold convert_ogg_to_wav in H.
    destruct (sc_spawn sc) as [[]|e]; [reflexivity|].
    cbn [bind except_Exception] in H. destruct (is_Exception e); discriminate.
  - intros (Hs & elapsed & Hr & Hle). unfold convert_ogg_to_wav, wait_for.
    rewrite Hs, Hr. cbn [bind].
    destruct (Z.leb_spec elapsed FFMPEG_TIMEOUT_MS); [reflexivity | lia].
  - intros e. apply except_raise_not_Exception.
Qed.

Lemma convert_ogg_to_wav_true_iff_witness :
  convert_ogg_to_wav scenario_ok "/tmp/tmpa1.ogg" "/tmp/tmpb2.wav" = OK true.
Proof.
  apply (convert_ogg_to_wav_true_iff scenario_ok).
  split; [reflexivity|]. exists 800. split; [reflexivity|]. vm_compute. discriminate.
Defined.

Lemma os_unlink_frame (sc : Scenario) (q : path) (fs : filesystem) (p : path) :
  p <> q -> (p ∈ snd (os_unlink sc q fs) <-> p ∈ fs).
Proof.
  intros Hne. unfold os_unlink. destruct (decide (q ∈ fs)) as [Hin|Hout]; [|reflexivity].
  destruct (sc_unlink sc q) as [[]|e]; simpl; [|reflexivity].
  rewrite elem_of_difference, elem_of_singleton. tauto.
Qed.

Lemma cleanup_frame (sc : Scenario) (ogg wav : path) (fs : filesystem) (p : path) :
  p <> ogg -> p <> wav -> (p ∈ snd (cleanup sc ogg wav fs) <-> p ∈ fs).
Proof.
  intros Ho Hw. unfold cleanup.
  pose proof (os_unlink_frame sc ogg fs p Ho) as H1.
  destruct (os_unlink sc ogg fs) as [[[]|e1] fs1]; simpl in *; [|exact H1].
  pose proof (os_unlink_frame sc wav fs1 p Hw) as H2.
  destruct (os_unlink sc wav fs1) as [r2 fs2]; simpl in *. tauto.
Qed.

(** X7.  The call touches no file but its own two temporary files: any other
    path is on disk after the call exactly when it was before. *)
Theorem voice_touches_only_temp_files (sc : Scenario) (fs : filesystem) (p : path) :
  sc_tmp_ogg sc <> OK p -> sc_tmp_wav sc <> OK p ->
  (p ∈ snd (convert_voice_to_text sc fs) <-> p ∈ fs).
Proof.
  intros Ho Hw. unfold convert_voice_to_text.
  destruct (voice_body sc fs) as [r fs'] eqn:Hb. simpl.
  unfold voice_body in Hb.
  destruct (sc_tmp_ogg sc) as [ogg|e]; [|injection Hb as _ <-; tauto].
  assert (Hpo : p <> ogg) by congruence.
  destruct (sc_tmp_wav sc) as [wav|e].
  2:{ injection Hb as _ <-. rewrite elem_of_union, elem_of_singleton. tauto. }
  assert (Hpw : p <> wav) by congruence.
  assert (Hin : p ∈ fs ∪ {[ogg]} ∪ {[wav]} <-> p ∈ fs).
  { rewrite !elem_of_union, !elem_of_singleton. tauto. }
  destruct (sc_download sc) as [[]|e]; [|injection Hb as _ <-; exact Hin].
  pose proof (cleanup_frame sc ogg wav (fs ∪ {[ogg]} ∪ {[wav]}) p Hpo Hpw) as Hc.
  destruct (cleanup sc ogg wav (fs ∪ {[ogg]} ∪ {[wav]})) as [c fs3].
  injection Hb as _ <-. simpl in Hc. tauto.
Qed.

Lemma voice_touches_only_temp_files_witness :
  "/home/bot/tasks.db"%string ∈
    snd (convert_voice_to_text scenario_ok {[ "/home/bot/tasks.db"%string ]}).
Proof.
  apply (voice_touches_only_temp_files scenario_ok).
  - discriminate.
  - discriminate.
  - now apply elem_of_singleton.
Defined.

(** X8.  Both unlinks stand in one [try]: when the first one raises, the
    second is skipped and both files stay on disk; the error is logged
    and the call returns what the recognition gave. *)
Theorem unlink_failure_keeps_both (sc : Scenario) (fs : filesystem)
    (ogg wav : path) (e : exn) :
  sc_tmp_ogg sc = OK ogg -> sc_tmp_wav sc = OK wav -> sc_download sc = OK tt ->
  sc_unlink sc ogg = Raise e -> is_Exception e = true ->
  snd (convert_voice_to_text sc fs) = fs ∪ {[ogg]} ∪ {[wav]} /\
  fst (convert_voice_to_text sc fs) =
    except_Exception (convert_and_recognize sc ogg wav) (fun _ => OK None).
Proof.
  intros Hogg Hwav Hdl Hun He.
  unfold convert_voice_to_text, voice_body. rewrite Hogg, Hwav, Hdl.
  unfold cleanup, os_unlink.
  destruct (decide (ogg ∈ fs ∪ {[ogg]} ∪ {[wav]})) as [_|Hn].
  - rewrite Hun. simpl. rewrite He. simpl. auto.
  - exfalso. apply Hn. rewrite !elem_of_union, !elem_of_singleton. tauto.
Qed.

Lemma unlink_failure_keeps_both_witness :
  snd (convert_voice_to_text
         (mk_scenario (OK "/tmp/tmpa1.ogg"%string) (OK "/tmp/tmpb2.wav"%string)
            (OK tt) (OK tt) (Exits 800 0) (OK tt) (OK tt) (OK (u "купить молоко"))
            (fun p => Raise OSError)) ∅)
  = ∅ ∪ {[ "/tmp/tmpa1.ogg"%string ]} ∪ {[ "/tmp/tmpb2.wav"%string ]}.
Proof.
  apply (unlink_failure_keeps_both _ ∅ "/tmp/tmpa1.ogg" "/tmp/tmpb2.wav" OSError);
    reflexivity.
Defined.

(** * Properties of the other handlers of bot.py *)

(** ** Users: get or create *)

Lemma find_app_one {A} (p : A -> bool) (l : list A) (x : A) :
  find p (l ++ [x]) =
  match find p l with
  | Some y => Some y
  | None => if p x then Some x else None
  end.
Proof.
  induction l as [|y l IH]; simpl; [reflexivity|].
  destruct (p y); [reflexivity | exact IH].
Qed.

Lemma user_by_telegram_none (db : Db) (telegram_id : Z) :
  user_by_telegram db telegram_id = None ->
  ~ In telegram_id (map user_telegram_id (db_users db)).
Proof.
  unfold user_by_telegram. induction (db_users db) as [|usr l IH]; simpl; [tauto|].
  destruct (Z.eqb_spec (user_telegram_id usr) telegram_id); [discriminate|].
  intros H [Heq|Hin]; [congruence | now apply IH].
Qed.

(** After the block the sender has a row; nothing else moved. *)
Lemma get_or_create_user_spec (rt : Runtime) (db : Db) (telegram_id : Z)
    (username : option str) :
  let '(user, db') := get_or_create_user rt db telegram_id username in
  user_by_telegram db' telegram_id = Some user /\
  user_telegram_id user = telegram_id /\
  db_tasks db' = db_tasks db /\
  (user_by_telegram db telegram_id = Some user /\ db' = db \/
   user_by_telegram db telegram_id = None /\
   user = mk_user (next_user_id rt (db_users db)) telegram_id username /\
   db_users db' = db_users db ++ [user]).
Proof.
  unfold get_or_create_user.
  destruct (user_by_telegram db telegram_id) as [user|] eqn:Hf.
  - repeat split; auto. unfold user_by_telegram in Hf.
    apply find_some in Hf as [_ Hf]. now apply Z.eqb_eq in Hf.
  - repeat split; auto. unfold user_by_telegram in *. cbn [db_users].
    rewrite find_app_one, Hf. cbn [user_telegram_id]. now rewrite Z.eqb_refl.
Qed.

(** X9.  /start registers the sender once: afterwards the sender has a row,
    the tasks and the rows of all other users are as before, a sender who
    had a row changes nothing, a second /start changes nothing, and
    Telegram ids that were unique stay unique. *)
Theorem cmd_start_registers_once (rt : Runtime) (db : Db) (upd : Update)
    (from_user : Z) :
  msg_from_user (upd_message upd) = Some from_user ->
  let db' := snd (cmd_start rt db upd) in
  fst (cmd_start rt db upd) = OK [greeting] /\
  is_Some (user_by_telegram db' from_user) /\
  db_tasks db' = db_tasks db /\
  (forall other, other <> from_user ->
     user_by_telegram db' other = user_by_telegram db other) /\
  (is_Some (user_by_telegram db from_user) -> db' = db) /\
  cmd_start rt db' upd = (OK [greeting], db') /\
  (List.NoDup (map user_telegram_id (db_users db)) ->
   List.NoDup (map user_telegram_id (db_users db'))).
Proof.
  intros Hfrom. unfold cmd_start. rewrite Hfrom.
  pose proof (get_or_create_user_spec rt db from_user (upd_username upd)) as Hspec.
  destruct (get_or_create_user rt db from_user (upd_username upd)) as [user db1].
  destruct Hspec as (Hfound & Htg & Htasks & Hcase). cbn [fst snd].
  split; [reflexivity|]. split; [eauto|]. split; [exact Htasks|].
  split; [|split; [|split]].
  - intros other Hne. destruct Hcase as [[_ ->]|(Hnone & Huser & Husers)];
      [reflexivity|].
    unfold user_by_telegram. rewrite Husers, find_app_one.
    destruct (find _ (db_users db)); [reflexivity|].
    rewrite Htg. destruct (Z.eqb_spec from_user other); [congruence | reflexivity].
  - intros [x Hx]. destruct Hcase as [[_ ->]|(Hnone & _)]; [reflexivity | congruence].
  - unfold get_or_create_user. now rewrite Hfound.
  - intros Hnd. destruct Hcase as [[_ ->]|(Hnone & Huser & Husers)]; [exact Hnd|].
    rewrite Husers, map_app. cbn [map]. rewrite Htg.
    apply List.NoDup_app_remove_r with (l' := []).
    rewrite <- app_assoc. cbn [app].
    apply List.NoDup_Add with (a := from_user) (l := map user_telegram_id (db_users db)).
    + rewrite <- (app_nil_r (map user_telegram_id (db_users db))) at 1.
      apply List.Add_app.
    + split; [exact Hnd | now apply user_by_telegram_none].
Qed.

Lemma cmd_start_registers_once_witness :
  is_Some (user_by_telegram
             (snd (cmd_start runtime0 db0
                     (mk_update (mk_message (u "/start") (Some 300)) None))) 300).
Proof.
  apply (cmd_start_registers_once runtime0 db0
           (mk_update (mk_message (u "/start") (Some 300)) None) 300).
  reflexivity.
Defined.

(** ** Task creation *)

Section Creation.
Context `{U : Ucd}.

(** X10.  A creation whose extraction returns stores one new task under the
    key that the engine gives: its fields are the extracted ones, it is
    pending and not completed, its creator is the sender, and its
    assignee is the first user who bears the mentioned name, if any.  No
    task that was stored before is changed, and the reply is not an error
    reply. *)
Theorem creation_stores_task (rt : Runtime) (E : Env) (db : Db) (upd : Update)
    (text : str) (from_user : Z) (title description : str)
    (due : option datetime) (priority : str) :
  msg_from_user (upd_message upd) = Some from_user ->
  extract_task_info E text = OK (title, description, due, priority) ->
  db_tasks db !! next_task_id rt (db_tasks db) = None ->
  exists task reply db',
    process_task_creation rt E db upd text = (OK [reply], db') /\
    is_error_reply reply = false /\
    db_tasks db' = <[next_task_id rt (db_tasks db) := task]> (db_tasks db) /\
    (forall id old, db_tasks db !! id = Some old -> db_tasks db' !! id = Some old) /\
    task_title task = title /\ task_description task = Some description /\
    task_due_date task = due /\ task_priority task = priority /\
    task_status task = u "pending" /\ task_is_completed task = false /\
    is_creator db' (upd_message upd) task /\
    task_assignee_id task =
      (extract_user_mention text ≫= fun name =>
       option_map user_id (find (username_is name) (db_users db'))).
Proof.
  intros Hfrom Hinfo Hfresh. unfold process_task_creation. rewrite Hfrom, Hinfo.
  pose proof (get_or_create_user_spec rt db from_user (upd_username upd)) as Hspec.
  destruct (get_or_create_user rt db from_user (upd_username upd)) as [user db1].
  destruct Hspec as (Hfound & Htg & Htasks & _). rewrite Htasks.
  eexists _, _, _. split; [reflexivity|]. cbn [db_tasks db_users].
  split; [reflexivity|]. split; [reflexivity|]. split.
  { intros id old Hold. rewrite lookup_insert_ne; [exact Hold | congruence]. }
  repeat (split; [reflexivity|]). split.
  - exists from_user, user. auto.
  - destruct (extract_user_mention text) as [[|c name]|] eqn:Hm; try reflexivity.
    apply mention_shape in Hm as [Hne _]. congruence.
Qed.

(** X11.  When the extraction raises, no task is stored and the reply is the
    error reply; the sender has been registered all the same, because the
    user row is committed before the extraction. *)
Theorem failed_creation_registers_sender (rt : Runtime) (E : Env) (db : Db)
    (upd : Update) (text : str) (from_user : Z) (e : exn) :
  msg_from_user (upd_message upd) = Some from_user ->
  extract_task_info E text = Raise e -> is_Exception e = true ->
  exists db',
    process_task_creation rt E db upd text = (OK [reply_create_error], db') /\
    db_tasks db' = db_tasks db /\
    is_Some (user_by_telegram db' from_user) /\
    (user_by_telegram db from_user = None ->
     db_users db' =
     db_users db ++ [mk_user (next_user_id rt (db_users db)) from_user
                       (upd_username upd)]).
Proof.
  intros Hfrom Hinfo He. unfold process_task_creation. rewrite Hfrom, Hinfo.
  pose proof (get_or_create_user_spec rt db from_user (upd_username upd)) as Hspec.
  destruct (get_or_create_user rt db from_user (upd_username upd)) as [user db1].
  destruct Hspec as (Hfound & Htg & Htasks & Hcase).
  exists db1. cbn [except_Exception]. rewrite He.
  split; [reflexivity|]. split; [exact Htasks|]. split; [eauto|].
  intros Hnone. destruct Hcase as [[Hsome _]|(_ & -> & Husers)];
    [congruence | exact Husers].
Qed.

(** X12.  Creating a task and then deleting it gives back the task table: the
    sender of the creation is the creator, so a /delete of the new id by
    the same sender is granted. *)
Theorem create_then_delete (rt : Runtime) (E : Env) (eng : Engine) (db : Db)
    (upd : Update) (text : str) (from_user : Z)
    (info : str * str * option datetime * str) (del : Message) (cmd arg : str) :
  msg_from_user (upd_message upd) = Some from_user ->
  extract_task_info E text = OK info ->
  db_tasks db !! next_task_id rt (db_tasks db) = None ->
  msg_from_user del = Some from_user ->
  str_split_maxsplit1 (msg_text del) = [cmd; arg] ->
  id_of_text eng arg = Row (next_task_id rt (db_tasks db)) ->
  let db' := snd (process_task_creation rt E db upd text) in
  exists db'',
    delete_task eng db' del =
      OK ([reply_deleted (next_task_id rt (db_tasks db))], db'') /\
    db_tasks db'' = db_tasks db /\ db_users db'' = db_users db'.
Proof.
  intros Hfrom Hinfo Hfresh Hdfrom Hargs Hid.
  destruct info as [[[title description] due] priority].
  unfold process_task_creation. rewrite Hfrom, Hinfo.
  pose proof (get_or_create_user_spec rt db from_user (upd_username upd)) as Hspec.
  destruct (get_or_create_user rt db from_user (upd_username upd)) as [user db1].
  destruct Hspec as (Hfound & Htg & Htasks & _). rewrite Htasks. cbn [snd].
  unfold delete_task. rewrite Hargs. cbn [length Nat.eqb negb nth].
  rewrite Hdfrom. cbn [bind db_users db_tasks].
  unfold user_by_telegram in Hfound. rewrite Hfound, Hid.
  rewrite lookup_insert_eq. cbn [task_creator_id opt_Z_eqb].
  rewrite Z.eqb_refl. cbn [negb except_Exception].
  eexists. split; [reflexivity|]. cbn [db_tasks db_users].
  split; [|reflexivity]. rewrite delete_insert_eq. now apply delete_id.
Qed.
End Creation.

Lemma creation_stores_task_witness :
  exists task reply db',
    process_task_creation runtime0 env0 db0
      (mk_update (mk_message (u "Новая задача: отчет для @boris") (Some 100))
         (Some (u "anna")))
      (u "Новая задача: отчет для @boris") = (OK [reply], db') /\
    db_tasks db' = <[2 := task]> (db_tasks db0) /\
    task_assignee_id task = Some 2.
Proof.
  destruct (creation_stores_task runtime0 env0 db0
              (mk_update (mk_message (u "Новая задача: отчет для @boris") (Some 100))
                 (Some (u "anna")))
              (u "Новая задача: отчет для @boris") 100
              (u "Новая задача: отчет для @boris") [] None (u "medium"))
    as (task & reply & db' & Hrun & _ & Htasks & _ & _ & _ & _ & _ & _ & _ & _ & Ha).
  - reflexivity.
  - vm_compute. reflexivity.
  - vm_compute. reflexivity.
  - exists task, reply, db'. split; [exact Hrun|]. split; [exact Htasks|].
    rewrite Ha. pose proof Hrun as Hrun'. vm_compute in Hrun'.
    injection Hrun' as _ Hdb. rewrite <- Hdb. vm_compute. reflexivity.
Defined.

Lemma failed_creation_registers_sender_witness :
  exists db',
    process_task_creation runtime0 env0 db0
      (mk_update (mk_message (u "задача: через 1000000000 дней") (Some 300)) None)
      (u "задача: через 1000000000 дней") = (OK [reply_create_error], db') /\
    db_tasks db' = db_tasks db0 /\ is_Some (user_by_telegram db' 300).
Proof.
  destruct (failed_creation_registers_sender runtime0 env0 db0
              (mk_update (mk_message (u "задача: через 1000000000 дней") (Some 300))
                 None)
              (u "задача: через 1000000000 дней") 300 OverflowError)
    as (db' & Hrun & Htasks & Hreg & _).
  - reflexivity.
  - vm_compute. reflexivity.
  - reflexivity.
  - exists db'. auto.
Defined.

Lemma create_then_delete_witness :
  exists db'',
    delete_task engine0
      (snd (process_task_creation runtime0 env0 db0
              (mk_update (mk_message (u "Задача: купить хлеб") (Some 200))
                 (Some (u "boris")))
              (u "Задача: купить хлеб")))
      (mk_message (u "/delete 2") (Some 200)) = OK ([reply_deleted 2], db'') /\
    db_tasks db'' = db_tasks db0.
Proof.
  destruct (create_then_delete runtime0 env0 engine0 db0
              (mk_update (mk_message (u "Задача: купить хлеб") (Some 200))
                 (Some (u "boris")))
              (u "Задача: купить хлеб") 200
              (u "Задача: купить хлеб", [], None, u "medium")
              (mk_message (u "/delete 2") (Some 200)) (u "/delete") (u "2"))
    as (db'' & Hrun & Htasks & _);
    try (vm_compute; reflexivity).
  exists db''. split; [exact Hrun | exact Htasks].
Defined.

(** ** /assign and /edit *)

Section Commands.
Context `{U : Ucd}.

(** Every word that [split] returns begins with a character that is not
    white space; in particular no word is empty. *)
Lemma str_split_max_words (maxsplit : nat) :
  forall s w, In w (str_split_max maxsplit s) ->
  exists c rest, w = c :: rest /\ ucd_isspace c = false.
Proof.
  induction maxsplit as [|n IH]; intros s w; cbn [str_split_max];
    destruct (str_lstrip s) as [|c s1] eqn:Hs; try (intros []; fail).
  - intros [<-|[]]. exists c, s1. split; [reflexivity|].
    now apply (drop_while_head ucd_isspace s c s1).
  - assert (Hc : ucd_isspace c = false)
      by now apply (drop_while_head ucd_isspace s c s1).
    intros [<-|Hin]; [|now apply (IH _ _ Hin)].
    cbn [take_while]. rewrite Hc. cbn [negb]. eauto.
Qed.

Lemma creator_check (db : Db) (message : Message) (from_user : Z)
    (current_user : User) (task : Task) :
  msg_from_user message = Some from_user ->
  user_by_telegram db from_user = Some current_user ->
  opt_Z_eqb (task_creator_id task) (Some (user_id current_user)) = true ->
  is_creator db message task.
Proof.
  intros Hf Hu Hc. exists from_user, current_user.
  apply opt_Z_eqb_eq in Hc. auto.
Qed.

(** X13.  /assign is granted only to the creator of the named task and only
    for an assignee that a user row names (leading [@] dropped); it then
    changes the assignee of that one task and nothing else, and a
    notification that fails does not undo it.  Every refusal is one error
    reply and leaves the store as it was. *)
Theorem assign_scoped_to_creator (rt : Runtime) (eng : Engine) (db : Db)
    (upd : Update) (notify : result unit) :
  let '(sent, raised, db') := assign_task rt eng db upd notify in
  (db' = db /\ raised = None /\
   exists r, sent = [Answer r] /\ is_error_reply r = true) \/
  (exists cmd arg name id task assignee,
     str_split_ws (msg_text (upd_message upd)) = [cmd; arg; name] /\
     id_of_text eng arg = Row id /\ db_tasks db !! id = Some task /\
     is_creator db (upd_message upd) task /\
     find (username_is (lstrip_at name)) (db_users db) = Some assignee /\
     db' = mk_db (db_users db)
             (<[id := set_assignee (Some (user_id assignee)) task]> (db_tasks db)) /\
     hd_error sent =
       Some (Answer (assign_response rt
                       (set_assignee (Some (user_id assignee)) task) assignee)) /\
     (forall e, raised = Some e -> notify = Raise e /\ is_Exception e = false)).
Proof.
  unfold assign_task.
  destruct (str_split_ws (msg_text (upd_message upd)))
    as [|cmd [|arg [|name [|x args]]]] eqn:Hargs;
    try (left; repeat split; eexists; split; reflexivity).
  cbn [length Nat.eqb negb nth].
  destruct (msg_from_user (upd_message upd)) as [from_user|] eqn:Hfrom;
    [|left; repeat split; eexists; split; reflexivity].
  destruct (user_by_telegram db from_user) as [current_user|] eqn:Huser;
    [|left; repeat split; eexists; split; reflexivity].
  destruct (id_of_text eng arg) as [id| |] eqn:Hid;
    try (left; repeat split; eexists; split; reflexivity).
  destruct (db_tasks db !! id) as [task|] eqn:Htask;
    [|left; repeat split; eexists; split; reflexivity].
  destruct (opt_Z_eqb (task_creator_id task) (Some (user_id current_user)))
    eqn:Hown; cbn [negb];
    [|left; repeat split; eexists; split; reflexivity].
  destruct (find (username_is (lstrip_at name)) (db_users db)) as [assignee|]
    eqn:Hass; [|left; repeat split; eexists; split; reflexivity].
  assert (Hcre : is_creator db (upd_message upd) task)
    by (eapply creator_check; eauto).
  destruct notify as [[]|e]; [|destruct (is_Exception e) eqn:He];
    right; exists cmd, arg, name, id, task, assignee;
    repeat (split; [first [reflexivity | assumption]|]);
    intros e' Hr; try discriminate Hr.
  injection Hr as <-. auto.
Qed.

(** X14.  /edit is granted only to the creator of the named task; it then
    replaces the title of that one task by the rest of the message after
    the id, which is never empty and never begins with white space, and
    changes nothing else.  Every refusal is one error reply and leaves the
    store as it was. *)
Theorem edit_changes_title_only (rt : Runtime) (eng : Engine) (db : Db)
    (upd : Update) (notify : result unit) :
  let '(sent, raised, db') := edit_task rt eng db upd notify in
  (db' = db /\ raised = None /\
   exists r, sent = [Answer r] /\ is_error_reply r = true) \/
  (exists cmd arg new_title id task,
     str_split_max 2 (msg_text (upd_message upd)) = [cmd; arg; new_title] /\
     id_of_text eng arg = Row id /\ db_tasks db !! id = Some task /\
     is_creator db (upd_message upd) task /\
     (exists c rest, new_title = c :: rest /\ ucd_isspace c = false) /\
     db' = mk_db (db_users db) (<[id := set_title new_title task]> (db_tasks db)) /\
     (exists assignee,
        hd_error sent =
        Some (Answer (edit_response rt (task_title task)
                        (set_title new_title task) assignee))) /\
     (forall e, raised = Some e -> notify = Raise e /\ is_Exception e = false)).
Proof.
  unfold edit_task.
  destruct (str_split_max 2 (msg_text (upd_message upd)))
    as [|cmd [|arg [|new_title [|x args]]]] eqn:Hargs;
    try (left; repeat split; eexists; split; reflexivity).
  cbn [length Nat.eqb negb nth].
  destruct (msg_from_user (upd_message upd)) as [from_user|] eqn:Hfrom;
    [|left; repeat split; eexists; split; reflexivity].
  destruct (user_by_telegram db from_user) as [current_user|] eqn:Huser;
    [|left; repeat split; eexists; split; reflexivity].
  destruct (id_of_text eng arg) as [id| |] eqn:Hid;
    try (left; repeat split; eexists; split; reflexivity).
  destruct (db_tasks db !! id) as [task|] eqn:Htask;
    [|left; repeat split; eexists; split; reflexivity].
  destruct (opt_Z_eqb (task_creator_id task) (Some (user_id current_user)))
    eqn:Hown; cbn [negb];
    [|left; repeat split; eexists; split; reflexivity].
  assert (Hcre : is_creator db (upd_message upd) task)
    by (eapply creator_check; eauto).
  assert (Hword : exists c rest, new_title = c :: rest /\ ucd_isspace c = false).
  { apply (str_split_max_words 2 (msg_text (upd_message upd))).
    rewrite Hargs. simpl. auto. }
  destruct (task_assignee _ _) as [a|];
    [destruct notify as [[]|e]; [|destruct (is_Exception e) eqn:He]|];
    right; exists cmd, arg, new_title, id, task;
    repeat (split; [first [reflexivity | assumption]|]);
    (split; [eexists; reflexivity|]);
    intros e' Hr; try discriminate Hr.
  injection Hr as <-. auto.
Qed.
End Commands.

(** ** Voice messages that give no text *)

Section Voice.
Context `{U : Ucd}.

(** X15.  A voice message that cannot be converted or recognised, or in which
    nothing is heard, creates nothing: the processing notice is turned
    into the "not recognised" text and the store is untouched, the sender
    is not even registered. *)
Theorem unrecognized_voice_creates_nothing (rt : Runtime) (E : Env)
    (sc : Scenario) (db : Db) (fs : filesystem) (upd : Update) :
  not_cancelled sc ->
  (exists elapsed rc, sc_run sc = Exits elapsed rc /\
                      (FFMPEG_TIMEOUT_MS < elapsed \/ rc <> 0)) \/
  (exists e, sc_recognize sc = Raise e) \/ sc_recognize sc = OK [] ->
  handle_voice rt E sc db fs upd =
  ([Answer voice_processing; EditText voice_not_recognized], None, db,
   snd (convert_voice_to_text sc fs)).
Proof.
  intros Hnc Hcase.
  assert (Hret : exists v, fst (convert_voice_to_text sc fs) = OK v).
  { pose proof (voice_body_ordinary sc fs Hnc) as Hb.
    unfold convert_voice_to_text.
    destruct (voice_body sc fs) as [r fs']. simpl in *.
    now apply except_ordinary. }
  destruct Hret as [v Hv]. unfold handle_voice.
  destruct (convert_voice_to_text sc fs) as [r fs'] eqn:Hrun. simpl in Hv. subst r.
  cbn [snd]. destruct v as [[|c text]|]; try reflexivity.
  exfalso.
  assert (Hsrc : fst (convert_voice_to_text sc fs) = OK (Some (c :: text)))
    by now rewrite Hrun.
  apply voice_text_source in Hsrc as (Hrec & elapsed & Hr & Hle).
  destruct Hcase as [(el & rc & Hr' & Hfail)|[(e & He)|Hempty]].
  - rewrite Hr in Hr'. injection Hr' as <- <-. lia.
  - congruence.
  - congruence.
Qed.
End Voice.

Lemma unrecognized_voice_creates_nothing_witness :
  handle_voice runtime0 env0 scenario_timeout db0 ∅
    (mk_update (mk_message [] (Some 300)) None) =
  ([Answer voice_processing; EditText voice_not_recognized], None, db0,
   snd (convert_voice_to_text scenario_timeout ∅)).
Proof.
  apply unrecognized_voice_creates_nothing.
  - repeat split.
  - left. exists 12000, 0. split; [reflexivity|]. left. reflexivity.
Defined.

Example assign_granted :
  assign_task runtime0 engine0 db1
    (mk_update (mk_message (u "/assign 2 @@anna") (Some 100)) (Some (u "anna")))
    (Raise RuntimeError) =
  ([Answer (assign_response runtime0
              (mk_task (u "Звонок") None None (u "pending") (u "high")
                 (Some 1) (Some 1) false)
              (mk_user 1 100 (Some (u "anna"))))],
   None,
   mk_db (db_users db1)
     (<[2 := mk_task (u "Звонок") None None (u "pending") (u "high")
               (Some 1) (Some 1) false]> (db_tasks db1))).
Proof. vm_compute. reflexivity. Qed.

Example edit_granted_and_refused :
  snd (edit_task runtime0 engine0 db1
         (mk_update (mk_message (u "/edit 2 Созвон  с клиентом") (Some 100))
            (Some (u "anna"))) (OK tt)) =
    mk_db (db_users db1)
      (<[2 := mk_task (u "Созвон  с клиентом") None None (u "pending") (u "high")
                (Some 2) (Some 1) false]> (db_tasks db1)) /\
  edit_task runtime0 engine0 db1
    (mk_update (mk_message (u "/edit 2 Созвон") (Some 200)) (Some (u "boris")))
    (OK tt) = ([Answer reply_edit_not_creator], None, db1) /\
  edit_task runtime0 engine0 db1
    (mk_update (mk_message (u "/edit 2   ") (Some 100)) (Some (u "anna")))
    (OK tt) = ([Answer reply_edit_bad_format], None, db1).
Proof. split; [|split]; vm_compute; reflexivity. Qed.

(** * Properties of web_server.py *)

Lemma str_eqb_eq (a b : str) : str_eqb a b = true <-> a = b.
Proof.
  revert b. induction a as [|x a IH]; intros [|y b]; simpl;
    try (split; [discriminate | congruence]); [tauto|].
  rewrite andb_true_iff, Z.eqb_eq, IH. split; [intros [-> ->] | intros H; injection H]; auto.
Qed.

(** X18.  Only the pair admin/admin is let in, and the name that is returned
    is then "admin".  Credentials with a character outside ASCII make
    [compare_digest] raise [TypeError]; every other pair is answered with
    the status 401. *)
Theorem only_admin_is_admitted (username password : str) :
  (forall name, get_current_username username password = Returned name <->
     username = u "admin" /\ password = u "admin" /\ name = u "admin") /\
  (is_ascii username = false \/ is_ascii password = false ->
   get_current_username username password = Failed TypeError) /\
  (is_ascii username = true -> is_ascii password = true ->
   username <> u "admin" \/ password <> u "admin" ->
   get_current_username username password =
   HTTPException 401 (u "Неверные учетные данные")).
Proof.
  unfold get_current_username, compare_digest.
  change (is_ascii (u "admin")) with true. rewrite !andb_true_r.
  destruct (is_ascii username) eqn:Hu.
  2:{ split; [|split].
      - intros name. split; [discriminate|]. intros (-> & _). discriminate Hu.
      - reflexivity.
      - discriminate. }
  destruct (is_ascii password) eqn:Hp.
  2:{ split; [|split].
      - intros name. split; [discriminate|]. intros (_ & -> & _). discriminate Hp.
      - reflexivity.
      - discriminate. }
  destruct (str_eqb username (u "admin")) eqn:Eu;
    destruct (str_eqb password (u "admin")) eqn:Ep; cbn [andb negb];
    try apply str_eqb_eq in Eu; try apply str_eqb_eq in Ep;
    (split; [|split]);
    try (intros name; split; [discriminate|]; intros (Hx & Hy & _);
         try (apply str_eqb_eq in Hx; congruence);
         try (apply str_eqb_eq in Hy; congruence));
    try (intros [H|H]; discriminate H);
    try reflexivity.
  - intros name. split.
    + intros H. injection H as <-. auto.
    + intros (_ & _ & ->). now rewrite Eu.
  - intros _ _ [H|H]; congruence.
Qed.

Lemma only_admin_is_admitted_witness :
  get_current_username (u "admin") (u "Admin") =
  HTTPException 401 (u "Неверные учетные данные").
Proof.
  apply only_admin_is_admitted.
  - reflexivity.
  - reflexivity.
  - right. vm_compute. discriminate.
Defined.

(** ** The dashboard *)

Lemma count_filter_le (p q : Task -> bool) (l : list (Z * Task)) :
  (forall task, p task = true -> q task = true) ->
  (length (filter (fun '(_, task) => p task = true) l) <=
   length (filter (fun '(_, task) => q task = true) l))%nat.
Proof.
  intros Hpq. induction l as [|[id task] l IH]; [reflexivity|].
  rewrite !filter_cons.
  destruct (decide (p task = true)) as [Hp|Hp];
    destruct (decide (q task = true)) as [Hq|Hq]; simpl; try lia.
  now destruct Hq; apply Hpq.
Qed.

Lemma count_tasks_le (p q : Task -> bool) (db : Db) :
  (forall task, p task = true -> q task = true) ->
  0 <= count_tasks p db <= count_tasks q db.
Proof.
  intros Hpq. unfold count_tasks.
  pose proof (count_filter_le p q (map_to_list (db_tasks db)) Hpq). lia.
Qed.

Lemma user_stats_loop_last (db : Db) (users : list User) (usr : User) :
  forall completed,
  snd (user_stats_loop db (users ++ [usr]) completed) =
  count_tasks (fun task => assigned_to usr task && task_is_completed task) db.
Proof.
  induction users as [|x users IH]; intros completed; cbn [app user_stats_loop].
  - reflexivity.
  - specialize (IH (count_tasks
                      (fun task => assigned_to x task && task_is_completed task) db)).
    destruct (user_stats_loop db (users ++ [usr]) _) as [stats final]. exact IH.
Qed.

Lemma user_stats_loop_rows (db : Db) (users : list User) :
  forall completed,
  fst (user_stats_loop db users completed) =
  map (fun usr => mk_user_stat (user_username usr)
                    (count_tasks (created_by usr) db)
                    (count_tasks (assigned_to usr) db)
                    (count_tasks (fun task => assigned_to usr task &&
                                              task_is_completed task) db)) users.
Proof.
  induction users as [|x users IH]; intros completed; cbn [user_stats_loop map].
  - reflexivity.
  - specialize (IH (count_tasks
                      (fun task => assigned_to x task && task_is_completed task) db)).
    destruct (user_stats_loop db users _) as [stats final]. simpl in *. now rewrite IH.
Qed.

(** X19.  The loop over the users reuses the variable [completed_tasks]: as
    soon as there is a user, the "completed tasks" card shows the
    completed tasks assigned to the last user, not the number of
    completed tasks, while the completion rate was computed before the
    loop from the number of completed tasks.  Without users the card shows
    that number. *)
Theorem dashboard_completed_is_last_user (db : Db) :
  (forall users usr, db_users db = users ++ [usr] ->
     ctx_completed_tasks (dashboard db) =
     count_tasks (fun task => assigned_to usr task && task_is_completed task) db) /\
  (db_users db = [] ->
     ctx_completed_tasks (dashboard db) = count_tasks task_is_completed db) /\
  ctx_completion_rate (dashboard db) =
    (if 0 <? count_tasks (fun _ => true) db
     then RateOf (count_tasks task_is_completed db) (count_tasks (fun _ => true) db)
     else RateZero).
Proof.
  unfold dashboard. split; [|split].
  - intros users usr Hu. rewrite Hu.
    pose proof (user_stats_loop_last db users usr (count_tasks task_is_completed db)) as H.
    destruct (user_stats_loop db (users ++ [usr]) _) as [stats final]. exact H.
  - intros Hu. rewrite Hu. reflexivity.
  - destruct (user_stats_loop db (db_users db) _) as [stats final]. reflexivity.
Qed.

Lemma dashboard_completed_is_last_user_witness :
  ctx_completed_tasks (dashboard db1) = 0 /\
  count_tasks task_is_completed db1 = 1.
Proof.
  split; [|vm_compute; reflexivity].
  destruct (dashboard_completed_is_last_user db1) as (H & _).
  rewrite (H [mk_user 1 100 (Some (u "anna"))] (mk_user 2 200 (Some (u "boris"))));
    vm_compute; reflexivity.
Defined.

(** X20.  The counts of the dashboard are consistent: one row per user, in
    table order; in each row completed <= assigned <= total and
    created <= total; no division by zero, and a rate is only formed from
    counts with 0 <= completed <= total. *)
Theorem dashboard_counts_bounded (db : Db) :
  let ctx := dashboard db in
  map stat_username (ctx_user_stats ctx) = map user_username (db_users db) /\
  Forall (fun row =>
            0 <= stat_completed_tasks row <= stat_assigned_tasks row /\
            stat_assigned_tasks row <= ctx_total_tasks ctx /\
            0 <= stat_created_tasks row <= ctx_total_tasks ctx)
         (ctx_user_stats ctx) /\
  (ctx_completion_rate ctx = RateZero <-> ctx_total_tasks ctx = 0) /\
  (forall completed total, ctx_completion_rate ctx = RateOf completed total ->
     total = ctx_total_tasks ctx /\ 0 < total /\ 0 <= completed <= total).
Proof.
  unfold dashboard.
  pose proof (user_stats_loop_rows db (db_users db) (count_tasks task_is_completed db))
    as Hrows.
  destruct (user_stats_loop db (db_users db) _) as [stats final].
  cbn [fst] in Hrows. subst stats.
  cbn [ctx_user_stats ctx_total_tasks ctx_completion_rate].
  pose proof (count_tasks_le task_is_completed (fun _ => true) db (fun _ _ => eq_refl))
    as Hall.
  split; [|split; [|split]].
  - rewrite map_map. reflexivity.
  - apply Forall_forall. intros row Hrow. apply list_elem_of_In in Hrow.
    apply in_map_iff in Hrow as (usr & <- & _).
    cbn [stat_completed_tasks stat_assigned_tasks stat_created_tasks].
    pose proof (count_tasks_le
                  (fun task => assigned_to usr task && task_is_completed task)
                  (assigned_to usr) db) as H1.
    pose proof (count_tasks_le (assigned_to usr) (fun _ => true) db (fun _ _ => eq_refl))
      as H2.
    pose proof (count_tasks_le (created_by usr) (fun _ => true) db (fun _ _ => eq_refl))
      as H3.
    assert (forall task, assigned_to usr task && task_is_completed task = true ->
                         assigned_to usr task = true)
      by (intros task Ht; now apply andb_true_iff in Ht).
    specialize (H1 H). lia.
  - destruct (Z.ltb_spec 0 (count_tasks (fun _ => true) db)); split.
    + discriminate.
    + intros H0. exfalso. lia.
    + intros _. lia.
    + reflexivity.
  - intros completed total.
    destruct (Z.ltb_spec 0 (count_tasks (fun _ => true) db)); [|discriminate].
    intros Hr. injection Hr as <- <-. repeat split; lia.
Qed.

(** * What the handlers never do *)

Section Frame.
Context `{U : Ucd}.

(** X16.  No command reaches a task of somebody else: after /delete, /assign or
    /edit, every task that the sender did not create is stored as before,
    and no user row has changed. *)
Theorem commands_keep_foreign_tasks (rt : Runtime) (eng : Engine) (db : Db)
    (upd : Update) (notify : result unit) (id : Z) (task : Task) :
  db_tasks db !! id = Some task ->
  ~ is_creator db (upd_message upd) task ->
  (forall replies db',
     delete_task eng db (upd_message upd) = OK (replies, db') ->
     db_tasks db' !! id = Some task /\ db_users db' = db_users db) /\
  (let '(_, _, db') := assign_task rt eng db upd notify in
   db_tasks db' !! id = Some task /\ db_users db' = db_users db) /\
  (let '(_, _, db') := edit_task rt eng db upd notify in
   db_tasks db' !! id = Some task /\ db_users db' = db_users db).
Proof.
  intros Hlook Hforeign.
  (* a change of the task [id'] by a sender who created it leaves [id] alone *)
  assert (Hother : forall from_user current_user id' task' new,
    msg_from_user (upd_message upd) = Some from_user ->
    user_by_telegram db from_user = Some current_user ->
    db_tasks db !! id' = Some task' ->
    opt_Z_eqb (task_creator_id task') (Some (user_id current_user)) = true ->
    (<[id' := new]> (db_tasks db) !! id = Some task) /\
    (delete id' (db_tasks db) !! id = Some task)).
  { intros from_user current_user id' task' new Hf Hu Hl Hc.
    assert (Hne : id' <> id).
    { intros ->. rewrite Hlook in Hl. injection Hl as <-.
      apply Hforeign. eapply creator_check; eauto. }
    rewrite lookup_insert_ne, lookup_delete_ne by exact Hne. auto. }
  split; [|split].
  - intros replies db'. unfold delete_task.
    destruct (str_split_maxsplit1 (msg_text (upd_message upd)))
      as [|cmd [|arg [|x args]]];
      cbn [length Nat.eqb negb nth except_Exception];
      try (intros H; injection H as _ <-; auto).
    destruct (msg_from_user (upd_message upd)) as [from_user|] eqn:Hfrom;
      cbn [bind except_Exception is_Exception];
      [|intros H; injection H as _ <-; auto].
    fold (user_by_telegram db from_user).
    destruct (user_by_telegram db from_user) as [current_user|] eqn:Huser;
      cbn [except_Exception]; [|intros H; injection H as _ <-; auto].
    destruct (id_of_text eng arg) as [id'| |];
      cbn [except_Exception is_Exception];
      try (intros H; injection H as _ <-; auto).
    destruct (db_tasks db !! id') as [task'|] eqn:Hl;
      cbn [except_Exception]; [|intros H; injection H as _ <-; auto].
    destruct (opt_Z_eqb (task_creator_id task') (Some (user_id current_user)))
      eqn:Hown; cbn [negb except_Exception]; intros H; injection H as _ <-; auto.
    cbn [db_tasks db_users]. split; [|reflexivity].
    eapply (Hother from_user current_user id' task' task); eauto.
  - unfold assign_task.
    destruct (str_split_ws (msg_text (upd_message upd)))
      as [|cmd [|arg [|name [|x args]]]]; cbn [length Nat.eqb negb nth]; auto.
    destruct (msg_from_user (upd_message upd)) as [from_user|] eqn:Hfrom; auto.
    destruct (user_by_telegram db from_user) as [current_user|] eqn:Huser; auto.
    destruct (id_of_text eng arg) as [id'| |]; auto.
    destruct (db_tasks db !! id') as [task'|] eqn:Hl; auto.
    destruct (opt_Z_eqb (task_creator_id task') (Some (user_id current_user)))
      eqn:Hown; cbn [negb]; auto.
    destruct (find (username_is (lstrip_at name)) (db_users db)) as [assignee|]; auto.
    destruct notify as [[]|e]; [|destruct (is_Exception e)];
      cbn [db_tasks db_users]; (split; [|reflexivity]);
      eapply Hother; eauto.
  - unfold edit_task.
    destruct (str_split_max 2 (msg_text (upd_message upd)))
      as [|cmd [|arg [|new_title [|x args]]]]; cbn [length Nat.eqb negb nth]; auto.
    destruct (msg_from_user (upd_message upd)) as [from_user|] eqn:Hfrom; auto.
    destruct (user_by_telegram db from_user) as [current_user|] eqn:Huser; auto.
    destruct (id_of_text eng arg) as [id'| |]; auto.
    destruct (db_tasks db !! id') as [task'|] eqn:Hl; auto.
    destruct (opt_Z_eqb (task_creator_id task') (Some (user_id current_user)))
      eqn:Hown; cbn [negb]; auto.
    destruct (task_assignee _ _) as [a|];
      [destruct notify as [[]|e]; [|destruct (is_Exception e)]|];
      cbn [db_tasks db_users]; (split; [|reflexivity]);
      eapply Hother; eauto.
Qed.

(** X17.  A creation, whether it succeeds or not, removes and changes nothing:
    the user rows of before are still there, in order, followed by at
    most one new row, and every task of before is stored as it was. *)
Theorem creation_keeps_store (rt : Runtime) (E : Env) (db : Db) (upd : Update)
    (text : str) :
  db_tasks db !! next_task_id rt (db_tasks db) = None ->
  let db' := snd (process_task_creation rt E db upd text) in
  (exists new, db_users db' = db_users db ++ new /\ (length new <= 1)%nat) /\
  (forall id task, db_tasks db !! id = Some task -> db_tasks db' !! id = Some task).
Proof.
  intros Hfresh. cbv zeta. unfold process_task_creation.
  destruct (msg_from_user (upd_message upd)) as [from_user|].
  2:{ cbn [snd]. split; [exists []; split; [now rewrite app_nil_r | simpl; lia] | auto]. }
  pose proof (get_or_create_user_spec rt db from_user (upd_username upd)) as Hspec.
  destruct (get_or_create_user rt db from_user (upd_username upd)) as [user db1].
  destruct Hspec as (_ & _ & Htasks & Hcase).
  assert (Husers : exists new, db_users db1 = db_users db ++ new /\ (length new <= 1)%nat).
  { destruct Hcase as [[_ ->]|(_ & _ & ->)].
    - exists []. split; [now rewrite app_nil_r | simpl; lia].
    - eexists. split; [reflexivity|]. simpl. lia. }
  destruct (extract_task_info E text) as [[[[title description] due] priority]|e];
    cbn [snd db_users db_tasks].
  - split; [exact Husers|]. intros id task Hl. rewrite Htasks.
    rewrite lookup_insert_ne; [exact Hl | congruence].
  - split; [exact Husers|]. intros id task Hl. now rewrite Htasks.
Qed.
End Frame.

Lemma commands_keep_foreign_tasks_witness :
  db_tasks (snd (edit_task runtime0 engine0 db1
                   (mk_update (mk_message (u "/edit 2 Мой звонок") (Some 200))
                      (Some (u "boris"))) (OK tt))) !! 2 =
  Some (mk_task (u "Звонок") None None (u "pending") (u "high")
          (Some 2) (Some 1) false).
Proof.
  destruct (commands_keep_foreign_tasks runtime0 engine0 db1
              (mk_update (mk_message (u "/edit 2 Мой звонок") (Some 200))
                 (Some (u "boris")))
              (OK tt) 2
              (mk_task (u "Звонок") None None (u "pending") (u "high")
                 (Some 2) (Some 1) false)) as (_ & _ & Hedit).
  - vm_compute. reflexivity.
  - intros (f & usr & Hf & Hu & Hc).
    vm_compute in Hf. injection Hf as <-.
    vm_compute in Hu. injection Hu as <-.
    vm_compute in Hc. discriminate Hc.
  - destruct (edit_task runtime0 engine0 db1 _ (OK tt)) as [[sent raised] db'].
    exact (proj1 Hedit).
Defined.

Lemma creation_keeps_store_witness :
  db_tasks (snd (process_task_creation runtime0 env0 db1
                   (mk_update (mk_message (u "задача: тест") (Some 300)) None)
                   (u "задача: тест"))) !! 1 =
  Some (mk_task (u "Отчет") None None (u "pending") (u "medium")
          (Some 1) (Some 1) true).
Proof.
  apply (creation_keeps_store runtime0 env0 db1); vm_compute; reflexivity.
Defined.
